(** * LLDB synthetic providers for Rust slices, vectors and hash tables

    A shallow embedding of [lldb/slice.py], [lldb/vec.py] and
    [lldb/hashmap.py].  The providers are Python classes driven by the
    debugger: [update] recomputes the geometry of the inspected value,
    [num_children], [get_child_index] and [get_child_at_index] answer the
    debugger's queries.

    The file has three layers:
    - the Python primitives the providers use (exceptions, list indexing,
      [str.lstrip], [str.rstrip], [str.isdigit], [int], [range], ["%s"]);
    - the part of the debugger's value API ([SBValue], [SBType]) the
      providers call, over a byte-addressed memory;
    - the three providers, one module each, and the properties proved
      about them. *)

From Stdlib Require Import ZArith List String Ascii Bool Lia Sorted.
From Stdlib Require Import Strings.Byte.
From Stdlib Require Import DecimalString DecimalPos DecimalN DecimalZ.
Import ListNotations.

Local Open Scope string_scope.
Local Open Scope Z_scope.

(* ================================================================== *)
(** * Python primitives *)
(* ================================================================== *)

Module Py.

(** The exceptions the providers can raise. *)
Inductive exn : Type :=
| IndexError   (* list index out of range *)
| TypeError    (* 'NoneType' object is not subscriptable *)
| ValueError   (* invalid literal for int() *)
| OverflowError. (* an integer argument outside the unsigned 64-bit range *)

(** Outcome of a Python expression or call: a value, or an exception that
    propagates to the caller. *)
Inductive result (A : Type) : Type :=
| Return (a : A)
| Raise (e : exn).
Arguments Return {A} a.
Arguments Raise {A} e.

Definition bind {A B : Type} (r : result A) (k : A -> result B) : result B :=
  match r with
  | Return a => k a
  | Raise e => Raise e
  end.

Declare Scope py_scope.
Delimit Scope py_scope with py.
Notation "x <- c1 ;; c2" := (bind c1 (fun x => c2))
  (at level 100, c1 at next level, right associativity) : py_scope.

(** [l[i]] on a Python list: a negative index counts from the end, and an
    index outside [-len(l), len(l)) raises [IndexError]. *)
Definition getitem {A : Type} (l : list A) (i : Z) : result A :=
  let n := Z.of_nat (List.length l) in
  let j := if i <? 0 then i + n else i in
  if (j <? 0) || (n <=? j) then Raise IndexError
  else match nth_error l (Z.to_nat j) with
       | Some a => Return a
       | None => Raise IndexError
       end.

(** [range(n)] for an integer [n]: [0, 1, ..., n-1], empty when [n <= 0]. *)
Definition range (n : Z) : list Z := map Z.of_nat (seq 0 (Z.to_nat n)).

(** [s.lstrip(c)] for a one-character argument: every leading [c] goes. *)
Fixpoint lstrip (c : ascii) (s : string) : string :=
  match s with
  | EmptyString => EmptyString
  | String a r => if Ascii.eqb a c then lstrip c r else s
  end.

(** [s.rstrip(c)] for a one-character argument: every trailing [c] goes. *)
Fixpoint rstrip (c : ascii) (s : string) : string :=
  match s with
  | EmptyString => EmptyString
  | String a r =>
      match rstrip c r with
      | EmptyString => if Ascii.eqb a c then EmptyString else String a EmptyString
      | r' => String a r'
      end
  end.

(** A name is a string of code points below 256, one per [ascii].  In that
    range the decimal digits are ['0'..'9'], and [str.isdigit] accepts three
    more characters: the superscripts U+00B2, U+00B3 and U+00B9. *)
Definition is_decimal_char (a : ascii) : bool :=
  let n := N_of_ascii a in ((48 <=? n) && (n <=? 57))%N.

Definition is_digit_char (a : ascii) : bool :=
  let n := N_of_ascii a in
  (is_decimal_char a || (n =? 178) || (n =? 179) || (n =? 185))%N.

Fixpoint string_forallb (p : ascii -> bool) (s : string) : bool :=
  match s with
  | EmptyString => true
  | String a r => p a && string_forallb p r
  end.

(** [s.isdigit()]: at least one character, and all of them digits. *)
Definition isdigit (s : string) : bool :=
  match s with
  | EmptyString => false
  | _ => string_forallb is_digit_char s
  end.

(** Value of a run of decimal digits read left to right. *)
Fixpoint decimal_value (s : string) (acc : Z) : Z :=
  match s with
  | EmptyString => acc
  | String a r => decimal_value r (10 * acc + (Z.of_N (N_of_ascii a) - 48))
  end.

(** [int(s)] for a string [s] that passed [isdigit]: the decimal value when
    every character is a decimal digit; the superscript digits are no
    literal and raise [ValueError].  The value is an unbounded integer: the
    interpreter's configurable limit on the number of digits of a
    conversion is left out, here and in [str]. *)
Definition int_of_digits (s : string) : result Z :=
  if string_forallb is_decimal_char s then Return (decimal_value s 0)
  else Raise ValueError.

(** [str(n)], also what ["%s" % n] prints for an integer [n]. *)
Definition str (n : Z) : string := NilZero.string_of_int (Z.to_int n).

(** ["[%s]" % index] *)
Definition bracketed (index : Z) : string := "[" ++ str index ++ "]".

End Py.

Import Py.
Local Open Scope py_scope.

(* ================================================================== *)
(** * The debugger's value API *)
(* ================================================================== *)

(** The providers never touch the debuggee directly: they navigate
    [SBValue]s by field name and index, read scalars with
    [GetValueAsUnsigned] and create new values at computed addresses.
    A missing field, an unreadable address or a value without a scalar
    reading raises nothing: it yields an invalid value or the number 0.
    The one error of the API is that of its binding, for an address
    argument that is no unsigned 64-bit number.

    Values are views into the debuggee's memory: a name, an address and a
    type that carries the field layout.  Scalars are read little-endian. *)

Module LLDB.

#[warnings="-register-all"] Inductive SBType : Type :=
| TInvalid
| TScalar (name : string) (size : N)
| TPointer (pointee : SBType)
| TTypedef (name : string) (target : SBType)
| TStruct (name : string) (size : N) (template_args : list SBType)
          (fields : list (string * (N * SBType))).

(** The stopped process: its memory (an address is readable or not) and the
    width of its addresses in bytes. *)
Record SBTarget : Type := {
  read_byte : Z -> option byte;
  address_byte_size : N
}.

(** [SBData]: the bytes of a value. *)
Definition SBData : Type := list byte.

Inductive SBValue : Type :=
| VInvalid
| VAtAddress (name : string) (addr : Z) (ty : SBType)
| VFromData (name : string) (data : SBData) (ty : SBType).

(** ** Types *)

Definition type_IsValid (ty : SBType) : bool :=
  match ty with
  | TInvalid => false
  | _ => true
  end.

(** The type with every typedef resolved. *)
Fixpoint canonical (ty : SBType) : SBType :=
  match ty with
  | TTypedef _ target => canonical target
  | _ => ty
  end.

Definition IsTypedefType (ty : SBType) : bool :=
  match ty with
  | TTypedef _ _ => true
  | _ => false
  end.

Definition GetTypedefedType (ty : SBType) : SBType :=
  match ty with
  | TTypedef _ target => target
  | _ => TInvalid
  end.

Definition IsPointerType (ty : SBType) : bool :=
  match canonical ty with
  | TPointer _ => true
  | _ => false
  end.

Definition GetPointerType (ty : SBType) : SBType :=
  match ty with
  | TInvalid => TInvalid
  | _ => TPointer ty
  end.

Definition GetPointeeType (ty : SBType) : SBType :=
  match canonical ty with
  | TPointer pointee => pointee
  | _ => TInvalid
  end.

Definition GetByteSize (tgt : SBTarget) (ty : SBType) : Z :=
  match canonical ty with
  | TScalar _ size => Z.of_N size
  | TPointer _ => Z.of_N (address_byte_size tgt)
  | TStruct _ size _ _ => Z.of_N size
  | _ => 0
  end.

Definition template_arguments (ty : SBType) : list SBType :=
  match canonical ty with
  | TStruct _ _ args _ => args
  | _ => []
  end.

(** [ty.GetTemplateArgumentType(i)]: invalid when there is no such
    argument. *)
Definition GetTemplateArgumentType (ty : SBType) (i : nat) : SBType :=
  nth i (template_arguments ty) TInvalid.

(** The [template_args] property of the Python binding: the list of the
    template arguments, or [None] when the type has none. *)
Definition template_args (ty : SBType) : option (list SBType) :=
  match template_arguments ty with
  | [] => None
  | args => Some args
  end.

(** [target.GetBasicType(eBasicTypeUnsignedChar)] *)
Definition unsigned_char : SBType := TScalar "unsigned char" 1.

(** ** Memory *)

Fixpoint read_bytes (tgt : SBTarget) (addr : Z) (n : nat) : option (list byte) :=
  match n with
  | O => Some []
  | S n' =>
      match read_byte tgt addr, read_bytes tgt (addr + 1) n' with
      | Some b, Some bs => Some (b :: bs)
      | _, _ => None
      end
  end.

Definition byte_value (b : byte) : Z := Z.of_N (Byte.to_N b).

Fixpoint little_endian (bs : list byte) : Z :=
  match bs with
  | [] => 0
  | b :: bs' => byte_value b + 256 * little_endian bs'
  end.

(** ** Values *)

Definition IsValid (v : SBValue) : bool :=
  match v with
  | VInvalid => false
  | _ => true
  end.

Definition GetName (v : SBValue) : string :=
  match v with
  | VInvalid => ""
  | VAtAddress name _ _ => name
  | VFromData name _ _ => name
  end.

Definition GetType (v : SBValue) : SBType :=
  match v with
  | VInvalid => TInvalid
  | VAtAddress _ _ ty => ty
  | VFromData _ _ ty => ty
  end.

Definition TypeIsPointerType (v : SBValue) : bool := IsPointerType (GetType v).

(** The [n] bytes that make up a value, when they can be read. *)
Definition value_bytes (tgt : SBTarget) (v : SBValue) (n : nat)
  : option (list byte) :=
  match v with
  | VInvalid => None
  | VAtAddress _ addr _ => read_bytes tgt addr n
  | VFromData _ data _ =>
      if (n <=? List.length data)%nat then Some (firstn n data) else None
  end.

(** [v.GetData()]: empty when the value cannot be read. *)
Definition GetData (tgt : SBTarget) (v : SBValue) : SBData :=
  match value_bytes tgt v (Z.to_nat (GetByteSize tgt (GetType v))) with
  | Some bs => bs
  | None => []
  end.

(** [v.GetValueAsUnsigned()]: the scalar (integer or pointer) reading of a
    value as an unsigned 64-bit number; 0 for an invalid value, for an
    aggregate and for unreadable memory. *)
Definition GetValueAsUnsigned (tgt : SBTarget) (v : SBValue) : Z :=
  match canonical (GetType v) with
  | TScalar _ _ | TPointer _ =>
      match value_bytes tgt v (Z.to_nat (GetByteSize tgt (GetType v))) with
      | Some bs => little_endian bs mod 2 ^ 64
      | None => 0
      end
  | _ => 0
  end.

(** A field of an aggregate value. *)
Definition field_value (tgt : SBTarget) (v : SBValue)
    (f : string * (N * SBType)) : SBValue :=
  let '(fname, (off, fty)) := f in
  match v with
  | VInvalid => VInvalid
  | VAtAddress _ addr _ => VAtAddress fname (addr + Z.of_N off) fty
  | VFromData _ data _ =>
      VFromData fname
        (firstn (Z.to_nat (GetByteSize tgt fty)) (skipn (N.to_nat off) data)) fty
  end.

(** The children of a value: the fields of a struct; for a pointer, the
    fields of the struct it points to, or the one value it points to. *)
Definition children (tgt : SBTarget) (v : SBValue) : list SBValue :=
  match v with
  | VInvalid => []
  | _ =>
      match canonical (GetType v) with
      | TStruct _ _ _ fields => map (field_value tgt v) fields
      | TPointer pointee =>
          let target := VAtAddress ("*" ++ GetName v) (GetValueAsUnsigned tgt v) pointee in
          match canonical pointee with
          | TStruct _ _ _ fields => map (field_value tgt target) fields
          | TInvalid => []
          | _ => [target]
          end
      | _ => []
      end
  end.

Definition GetChildAtIndex (tgt : SBTarget) (v : SBValue) (i : nat) : SBValue :=
  nth i (children tgt v) VInvalid.

Definition GetChildMemberWithName (tgt : SBTarget) (v : SBValue) (name : string)
  : SBValue :=
  match find (fun c => String.eqb (GetName c) name) (children tgt v) with
  | Some c => c
  | None => VInvalid
  end.

(** The value of type [ty] at a load address.  Address 0 is no load
    address: the value made there exists, has the name and the type, and
    neither it nor its children can be read. *)
Definition value_at (name : string) (address : Z) (ty : SBType) : SBValue :=
  if address =? 0 then VFromData name [] ty else VAtAddress name address ty.

(** [base.CreateValueFromAddress(name, address, ty)].  The address is an
    unsigned 64-bit argument of the binding: a Python integer outside
    [0, 2^64) raises [OverflowError] before the call is made. *)
Definition CreateValueFromAddress (base : SBValue) (name : string) (address : Z)
    (ty : SBType) : result SBValue :=
  if (address <? 0) || (2 ^ 64 <=? address) then Raise OverflowError
  else if IsValid base && type_IsValid ty then Return (value_at name address ty)
  else Return VInvalid.

(** [base.CreateValueFromData(name, data, ty)] *)
Definition CreateValueFromData (base : SBValue) (name : string) (data : SBData)
    (ty : SBType) : SBValue :=
  if IsValid base && type_IsValid ty then VFromData name data ty
  else VInvalid.

(** [v.Cast(ty)]: the same location or bytes under another type. *)
Definition Cast (v : SBValue) (ty : SBType) : SBValue :=
  match v with
  | VInvalid => VInvalid
  | VAtAddress name addr _ =>
      if type_IsValid ty then VAtAddress name addr ty else VInvalid
  | VFromData name data _ =>
      if type_IsValid ty then VFromData name data ty else VInvalid
  end.

(** [v.GetTarget().GetBasicType(eBasicTypeUnsignedChar)] *)
Definition GetBasicType_unsigned_char (v : SBValue) : SBType :=
  if IsValid v then unsigned_char else TInvalid.

End LLDB.

Import LLDB.

(* ================================================================== *)
(** * The providers *)
(* ================================================================== *)

(** ** [lldb/slice.py]: [StdSliceSyntheticProvider] *)

Module StdSlice.

Record provider : Type := {
  valobj : SBValue;
  length : Z;
  data_ptr : SBValue;
  element_type : SBType;
  element_type_size : Z
}.

Definition update (tgt : SBTarget) (self : provider) : provider :=
  let length := GetValueAsUnsigned tgt (GetChildMemberWithName tgt (valobj self) "length") in
  let data_ptr := GetChildMemberWithName tgt (valobj self) "data_ptr" in
  let element_type := GetPointeeType (GetType data_ptr) in
  let element_type_size := GetByteSize tgt element_type in
  {| valobj := valobj self;
     length := length;
     data_ptr := data_ptr;
     element_type := element_type;
     element_type_size := element_type_size |}.

(** [__init__] stores [valobj] and calls [update], which assigns every other
    attribute. *)
Definition init (tgt : SBTarget) (valobj : SBValue) : provider :=
  update tgt {| valobj := valobj; length := 0; data_ptr := VInvalid;
                element_type := TInvalid; element_type_size := 0 |}.

Definition num_children (self : provider) : Z := length self.

Definition get_child_index (name : string) : result Z :=
  let index := rstrip "]" (lstrip "[" name) in
  if isdigit index then int_of_digits index
  else Return (-1).

Definition get_child_at_index (tgt : SBTarget) (self : provider) (index : Z)
  : result SBValue :=
  let start := GetValueAsUnsigned tgt (data_ptr self) in
  let address := start + index * element_type_size self in
  element <- CreateValueFromAddress (data_ptr self) (bracketed index) address
               (element_type self) ;;
  Return element.

Definition has_children (self : provider) : bool := true.

End StdSlice.

(** ** [lldb/vec.py]: [StdVecSyntheticProvider] *)

Module StdVec.

Definition unwrap_unique_or_non_null (tgt : SBTarget) (unique_or_nonnull : SBValue)
  : SBValue :=
  let ptr := GetChildMemberWithName tgt unique_or_nonnull "pointer" in
  if TypeIsPointerType ptr then ptr else GetChildAtIndex tgt ptr 0.

Record provider : Type := {
  valobj : SBValue;
  length : Z;
  buf : SBValue;
  data_ptr : SBValue;
  element_type : SBType;
  element_type_size : Z
}.

Definition update (tgt : SBTarget) (self : provider) : provider :=
  let length := GetValueAsUnsigned tgt (GetChildMemberWithName tgt (valobj self) "len") in
  let buf :=
    GetChildMemberWithName tgt (GetChildMemberWithName tgt (valobj self) "buf") "inner" in
  let data_ptr := unwrap_unique_or_non_null tgt (GetChildMemberWithName tgt buf "ptr") in
  let element_type := GetTemplateArgumentType (GetType (valobj self)) 0 in
  let element_type_size := GetByteSize tgt element_type in
  {| valobj := valobj self;
     length := length;
     buf := buf;
     data_ptr := data_ptr;
     element_type := element_type;
     element_type_size := element_type_size |}.

(** [__init__] stores [valobj] and calls [update], which assigns every other
    attribute. *)
Definition init (tgt : SBTarget) (valobj : SBValue) : provider :=
  update tgt {| valobj := valobj; length := 0; buf := VInvalid; data_ptr := VInvalid;
                element_type := TInvalid; element_type_size := 0 |}.

Definition num_children (self : provider) : Z := length self.

Definition get_child_index (name : string) : result Z :=
  let index := rstrip "]" (lstrip "[" name) in
  if isdigit index then int_of_digits index
  else Return (-1).

Definition get_child_at_index (tgt : SBTarget) (self : provider) (index : Z)
  : result SBValue :=
  let start := GetValueAsUnsigned tgt (data_ptr self) in
  let address := start + index * element_type_size self in
  element <- CreateValueFromAddress (data_ptr self) (bracketed index) address
               (element_type self) ;;
  Return element.

Definition has_children (self : provider) : bool := true.

End StdVec.

(** ** [lldb/hashmap.py]: [StdHashMapSyntheticProvider] and
       [StdHashSetSyntheticProvider] *)

Module StdHashMap.

(** The class of an instance selects the [table] method. *)
Inductive class : Type :=
| StdHashMapSyntheticProvider
| StdHashSetSyntheticProvider.

Record provider : Type := {
  cls : class;
  valobj : SBValue;
  show_values : bool;
  size : Z;
  pair_type : SBType;
  pair_type_size : Z;
  new_layout : bool;
  data_ptr : SBValue;
  valid_indices : list Z
}.

Definition set_size (self : provider) (n : Z) : provider :=
  {| cls := cls self; valobj := valobj self; show_values := show_values self;
     size := n;
     pair_type := pair_type self; pair_type_size := pair_type_size self;
     new_layout := new_layout self; data_ptr := data_ptr self;
     valid_indices := valid_indices self |}.

Definition num_children (self : provider) : Z := size self.

Definition get_child_index (name : string) : result Z :=
  let index := rstrip "]" (lstrip "[" name) in
  if isdigit index then int_of_digits index
  else Return (-1).

(** Lines 26 to 30 of [get_child_at_index]: the address of the element. *)
Definition element_address (tgt : SBTarget) (self : provider) (index : Z)
  : result Z :=
  let pairs_start := GetValueAsUnsigned tgt (data_ptr self) in
  idx <- getitem (valid_indices self) index ;;
  let idx := if new_layout self then - (idx + 1) else idx in
  let address := pairs_start + idx * pair_type_size self in
  Return address.

Definition get_child_at_index (tgt : SBTarget) (self : provider) (index : Z)
  : result SBValue :=
  address <- element_address tgt self index ;;
  element <- CreateValueFromAddress (data_ptr self) (bracketed index) address
               (pair_type self) ;;
  if show_values self then Return element
  else
    let key := GetChildAtIndex tgt element 0 in
    Return (CreateValueFromData (valobj self) (bracketed index)
              (GetData tgt key) (GetType key)).

(** [table]: overridden by the set provider, which goes through one more
    field. *)
Definition table (tgt : SBTarget) (self : provider) : SBValue :=
  match cls self with
  | StdHashMapSyntheticProvider =>
      let hashbrown_hashmap := GetChildMemberWithName tgt (valobj self) "base" in
      GetChildMemberWithName tgt hashbrown_hashmap "table"
  | StdHashSetSyntheticProvider =>
      let hashbrown_hashset := GetChildMemberWithName tgt (valobj self) "base" in
      let hashbrown_hashmap := GetChildMemberWithName tgt hashbrown_hashset "map" in
      GetChildMemberWithName tgt hashbrown_hashmap "table"
  end.

(** The control byte the scan reads for slot [idx] (lines 63 to 65). *)
Definition control_value (tgt : SBTarget) (ctrl : SBValue) (u8_type : SBType)
    (u8_type_size : Z) (idx : Z) : result Z :=
  let address := GetValueAsUnsigned tgt ctrl + idx * u8_type_size in
  byte <- CreateValueFromAddress ctrl ("ctrl[" ++ str idx ++ "]") address u8_type ;;
  Return (GetValueAsUnsigned tgt byte).

(** The [for idx in range(capacity)] loop (lines 62 to 68), started on the
    list [valid_indices]: its outcome and the list it leaves.  When a read
    raises, the indices appended so far stay in the list. *)
Fixpoint scan (tgt : SBTarget) (ctrl : SBValue) (u8_type : SBType)
    (u8_type_size : Z) (indices : list Z) (valid_indices : list Z)
  : result unit * list Z :=
  match indices with
  | [] => (Return tt, valid_indices)
  | idx :: rest =>
      match control_value tgt ctrl u8_type u8_type_size idx with
      | Raise e => (Raise e, valid_indices)
      | Return value =>
          let is_present := Z.land value 128 =? 0 in
          scan tgt ctrl u8_type u8_type_size rest
            (if is_present then (valid_indices ++ [idx])%list else valid_indices)
      end
  end.

(** [update]: the outcome of the call and the instance it leaves.  Two
    statements can raise: [table.type.template_args[0]], when
    [template_args] is [None], after [self.size] is assigned; and the read
    of a control byte in the loop, when its address is no unsigned 64-bit
    number, after every other attribute is assigned. *)
Definition update (tgt : SBTarget) (self : provider) : result unit * provider :=
  let table := table tgt self in
  let inner_table := GetChildMemberWithName tgt table "table" in
  let capacity :=
    GetValueAsUnsigned tgt (GetChildMemberWithName tgt inner_table "bucket_mask") + 1 in
  let ctrl := GetChildAtIndex tgt (GetChildMemberWithName tgt inner_table "ctrl") 0 in
  let size := GetValueAsUnsigned tgt (GetChildMemberWithName tgt inner_table "items") in
  match template_args (GetType table) with
  | None => (Raise TypeError, set_size self size)
  | Some args =>
      match getitem args 0 with
      | Raise e => (Raise e, set_size self size)
      | Return pair_type =>
          let pair_type :=
            if IsTypedefType pair_type then GetTypedefedType pair_type
            else pair_type in
          let pair_type_size := GetByteSize tgt pair_type in
          let new_layout :=
            negb (IsValid (GetChildMemberWithName tgt inner_table "data")) in
          let data_ptr :=
            if new_layout then Cast ctrl (GetPointerType pair_type)
            else GetChildAtIndex tgt (GetChildMemberWithName tgt inner_table "data") 0 in
          let u8_type := GetBasicType_unsigned_char (valobj self) in
          let u8_type_size := GetByteSize tgt (GetBasicType_unsigned_char (valobj self)) in
          let '(outcome, valid_indices) :=
            scan tgt ctrl u8_type u8_type_size (range capacity) [] in
          (outcome,
           {| cls := cls self; valobj := valobj self; show_values := show_values self;
              size := size;
              pair_type := pair_type;
              pair_type_size := pair_type_size;
              new_layout := new_layout;
              data_ptr := data_ptr;
              valid_indices := valid_indices |})
      end
  end.

(** An instance on entry to [__init__]'s call of [update]: [valobj] and
    [show_values] are stored, and [update] assigns every other attribute
    before it returns. *)
Definition fresh (c : class) (valobj : SBValue) (show_values : bool) : provider :=
  {| cls := c; valobj := valobj; show_values := show_values;
     size := 0; pair_type := TInvalid; pair_type_size := 0;
     new_layout := false; data_ptr := VInvalid; valid_indices := [] |}.

(** [__init__] stores [valobj] and [show_values] and calls [update]; when
    [update] raises, so does the constructor and there is no instance. *)
Definition init (tgt : SBTarget) (c : class) (valobj : SBValue) (show_values : bool)
  : result provider :=
  match update tgt (fresh c valobj show_values) with
  | (Return _, self') => Return self'
  | (Raise e, _) => Raise e
  end.

(** [StdHashMapSyntheticProvider(valobj, dict)], [show_values] defaulting to
    [True]. *)
Definition new_map (tgt : SBTarget) (valobj : SBValue) : result provider :=
  init tgt StdHashMapSyntheticProvider valobj true.

(** [StdHashSetSyntheticProvider(valobj, dict)] *)
Definition new_set (tgt : SBTarget) (valobj : SBValue) : result provider :=
  init tgt StdHashSetSyntheticProvider valobj false.

Definition has_children (self : provider) : bool := true.

End StdHashMap.

(** ** The header fields [update] reads *)

Module HashMapHeader.
Import StdHashMap.

(** The values [update] reads from the table header, named as in its body. *)
Definition inner_table (tgt : SBTarget) (self : provider) : SBValue :=
  GetChildMemberWithName tgt (table tgt self) "table".

Definition bucket_mask (tgt : SBTarget) (self : provider) : Z :=
  GetValueAsUnsigned tgt (GetChildMemberWithName tgt (inner_table tgt self) "bucket_mask").

Definition capacity (tgt : SBTarget) (self : provider) : Z :=
  bucket_mask tgt self + 1.

Definition ctrl (tgt : SBTarget) (self : provider) : SBValue :=
  GetChildAtIndex tgt (GetChildMemberWithName tgt (inner_table tgt self) "ctrl") 0.

Definition items (tgt : SBTarget) (self : provider) : Z :=
  GetValueAsUnsigned tgt (GetChildMemberWithName tgt (inner_table tgt self) "items").

Definition data_field (tgt : SBTarget) (self : provider) : SBValue :=
  GetChildMemberWithName tgt (inner_table tgt self) "data".

(** The read of the control byte of physical slot [i], as the scan does
    it. *)
Definition read_control_byte (tgt : SBTarget) (self : provider) (i : Z) : result Z :=
  control_value tgt (ctrl tgt self)
    (GetBasicType_unsigned_char (valobj self))
    (GetByteSize tgt (GetBasicType_unsigned_char (valobj self))) i.

(** What a read of the scan returns, 0 when it raises. *)
Definition returned (r : result Z) : Z :=
  match r with
  | Return value => value
  | Raise _ => 0
  end.

(** The control byte of physical slot [i]: what that read returns. *)
Definition control_byte (tgt : SBTarget) (self : provider) (i : Z) : Z :=
  returned (read_control_byte tgt self i).

(** The address of the control byte of the last slot, [capacity - 1]. *)
Definition last_control_address (tgt : SBTarget) (self : provider) : Z :=
  GetValueAsUnsigned tgt (ctrl tgt self)
  + bucket_mask tgt self * GetByteSize tgt (GetBasicType_unsigned_char (valobj self)).

Definition occupied (tgt : SBTarget) (self : provider) (i : Z) : bool :=
  Z.land (control_byte tgt self i) 128 =? 0.

End HashMapHeader.

(* ================================================================== *)
(** * Child names *)
(* ================================================================== *)

Module Names.

(** [c * n]: the character [c], [n] times. *)
Fixpoint rep (c : ascii) (n : nat) : string :=
  match n with
  | O => EmptyString
  | S n' => String c (rep c n')
  end.

(** The names [get_child_index] resolves to a number or an exception: any
    number of ['['], a run that [isdigit] accepts, any number of [']']. *)
Definition lenient_form (name : string) : Prop :=
  exists (a b : nat) (digits : string),
    name = rep "[" a ++ digits ++ rep "]" b /\ isdigit digits = true.

(** After the opening bracket of the strict form: one or more decimal
    digits, one [']'], and nothing more. *)
Fixpoint digits_then_bracket (s : string) (seen : bool) : bool :=
  match s with
  | EmptyString => false
  | String a r =>
      if is_decimal_char a then digits_then_bracket r true
      else seen && Ascii.eqb a "]" &&
           match r with EmptyString => true | _ => false end
  end.

(** The strict form of a child name, [^\[\d+\]$]. *)
Definition matches_bracketed_decimal (name : string) : bool :=
  match name with
  | String a r => Ascii.eqb a "[" && digits_then_bracket r false
  | EmptyString => false
  end.

End Names.

Import Names.

(* ================================================================== *)
(** * Type matchers *)
(* ================================================================== *)

(** [is_std_vec], [is_std_hashmap] and [is_std_hashset] look at their
    argument through [type_obj.GetName()] alone; the name is the argument
    here. *)

Module Matchers.

(** [s.startswith(prefix)] *)
Definition startswith (s prefix : string) : bool := String.prefix prefix s.

(** [lldb/vec.py], [is_std_vec] *)
Definition is_std_vec (type_name : string) : bool :=
  let to_ret := startswith type_name "alloc::vec::Vec<" in
  to_ret.

(** [lldb/hashmap.py], [is_std_hashmap] *)
Definition is_std_hashmap (type_name : string) : bool :=
  startswith type_name "std::collections::hash::map::HashMap<".

(** [lldb/hashmap.py], [is_std_hashset] *)
Definition is_std_hashset (type_name : string) : bool :=
  startswith type_name "std::collections::hash::set::HashSet<".

End Matchers.

(* ================================================================== *)
(** * Regular expressions *)
(* ================================================================== *)

(** The fragment of Python's [re] that [lldb/collections.py] uses: a
    pattern is a sequence of one-character classes, each taken once or
    under a greedy [*] or [+], with capture groups around runs of them.
    [re.match] anchors the pattern at the start of the string and not at
    its end; a greedy repetition takes as many characters as it can and
    gives them back one at a time when the rest of the pattern fails. *)

Module Re.

Inductive charset : Type :=
| Dot                 (* [.]: any character but a newline *)
| Lit (c : ascii)     (* the character itself *)
| Not (c : ascii)     (* [[^c]] *)
| Space.              (* [\s] *)

Inductive quantifier : Type :=
| One
| Star
| Plus.

Inductive token : Type :=
| Chars (cs : charset) (q : quantifier)
| Open                (* [(] *)
| Close.              (* [)] *)

(** [\s] on code points below 256: the characters [str.isspace] accepts. *)
Definition is_space_char (a : ascii) : bool :=
  let n := N_of_ascii a in
  (((9 <=? n) && (n <=? 13)) || ((28 <=? n) && (n <=? 32))
   || (n =? 133) || (n =? 160))%N.

Definition accepts (cs : charset) (a : ascii) : bool :=
  match cs with
  | Dot => negb (Ascii.eqb a "010")
  | Lit c => Ascii.eqb a c
  | Not c => negb (Ascii.eqb a c)
  | Space => is_space_char a
  end.

(** A character that is consumed joins every group that is open. *)
Definition consume (a : ascii) (opens : list string) : list string :=
  map (fun g => g ++ String a EmptyString) opens.

(** A greedy run of [cs] followed by the continuation [k]: the longest run
    first, then shorter ones. *)
Fixpoint greedy (cs : charset) (k : string -> list string -> option (list string))
    (s : string) (opens : list string) : option (list string) :=
  match s with
  | String a r =>
      if accepts cs a then
        match greedy cs k r (consume a opens) with
        | Some groups => Some groups
        | None => k s opens
        end
      else k s opens
  | EmptyString => k s opens
  end.

(** [run p s opens closed]: match the tokens [p] at the head of [s];
    [opens] holds the text of the groups that are open, innermost first,
    [closed] the groups that are complete, in the order they closed.  The
    result is the list of the groups. *)
Fixpoint run (p : list token) (s : string) (opens closed : list string)
  : option (list string) :=
  match p with
  | [] => Some closed
  | Open :: p' => run p' s (EmptyString :: opens) closed
  | Close :: p' =>
      match opens with
      | g :: opens' => run p' s opens' (closed ++ [g])
      | [] => None
      end
  | Chars cs One :: p' =>
      match s with
      | String a r => if accepts cs a then run p' r (consume a opens) closed else None
      | EmptyString => None
      end
  | Chars cs Star :: p' =>
      greedy cs (fun s' opens' => run p' s' opens' closed) s opens
  | Chars cs Plus :: p' =>
      match s with
      | String a r =>
          if accepts cs a
          then greedy cs (fun s' opens' => run p' s' opens' closed) r (consume a opens)
          else None
      | EmptyString => None
      end
  end.

(** [re.match(pattern, s)]: the groups of the match, [m.group(1)] first, or
    [None]. *)
Definition re_match (pattern : list token) (s : string) : option (list string) :=
  run pattern s [] [].

(** [m.group(n)] for [n >= 1]. *)
Definition group (m : list string) (n : nat) : string := nth (n - 1) m EmptyString.

(** The open groups after the run [pre] has been consumed. *)
Definition consume_all (pre : string) (opens : list string) : list string :=
  map (fun g => g ++ pre) opens.

(** [c not in s] *)
Definition lacks (c : ascii) (s : string) : bool :=
  string_forallb (fun a => negb (Ascii.eqb a c)) s.

End Re.

(* ================================================================== *)
(** * [lldb/collections.py] *)
(* ================================================================== *)

Module Collections.
Import Re.

(** The pattern of [trim_namespace]: [.*], [::], then the group of
    [[^:]*]. *)
Definition namespace_pattern : list token :=
  [Chars Dot Star; Chars (Lit ":") One; Chars (Lit ":") One;
   Open; Chars (Not ":") Star; Close].

Definition trim_namespace (name : string) : string :=
  match re_match namespace_pattern name with
  | Some m => group m 1
  | None => name
  end.

(** The pattern of [summarize_one_arg_len]: the group of [[^<]+], [<], the
    group of [[^,]*], a comma, [.*]. *)
Definition one_arg_pattern : list token :=
  [Open; Chars (Not "<") Plus; Close; Chars (Lit "<") One;
   Open; Chars (Not ",") Star; Close; Chars (Lit ",") One;
   Chars Dot Star].

(** The pattern of [summarize_two_arg_len]: the group of [[^<]+], [<], the
    group of [[^,]*], a comma, [\s*], the group of [[^,]*], a comma,
    [.*]. *)
Definition two_arg_pattern : list token :=
  [Open; Chars (Not "<") Plus; Close; Chars (Lit "<") One;
   Open; Chars (Not ",") Star; Close; Chars (Lit ",") One;
   Chars Space Star;
   Open; Chars (Not ",") Star; Close; Chars (Lit ",") One;
   Chars Dot Star].

(** Outcome of a summary function: the text, or the [AttributeError] of
    [m.group] when [re.match] returned [None]. *)
Inductive summary : Type :=
| Summary (text : string)
| AttributeError.

(** [summarize_one_arg_len]: the value enters through
    [valobj.GetType().GetName()] and [valobj.GetNumChildren()], the two
    arguments here. *)
Definition summarize_one_arg_len (display_type_name : string) (num_children : Z)
  : summary :=
  match re_match one_arg_pattern display_type_name with
  | None => AttributeError
  | Some m =>
      Summary (trim_namespace (group m 1) ++ "<" ++
               trim_namespace (group m 2) ++
               "> size=" ++ str num_children)
  end.

(** [summarize_two_arg_len], with the same two arguments. *)
Definition summarize_two_arg_len (display_type_name : string) (num_children : Z)
  : summary :=
  match re_match two_arg_pattern display_type_name with
  | None => AttributeError
  | Some m =>
      Summary (trim_namespace (group m 1) ++ "<" ++
               trim_namespace (group m 2) ++
               ", " ++
               trim_namespace (group m 3) ++
               "> size=" ++ str num_children)
  end.

End Collections.

(** Two values look alike to the navigation when they agree on validity,
    name and type; where they lie in memory does not matter. *)
Definition same_shape (v w : SBValue) : Prop :=
  IsValid v = IsValid w /\ GetName v = GetName w /\ GetType v = GetType w.

(* ================================================================== *)
(** * Memory images used in the examples *)
(* ================================================================== *)

Module Fixtures.

Definition byte_of_Z (z : Z) : byte :=
  match Byte.of_N (Z.to_N (z mod 256)) with
  | Some b => b
  | None => x00
  end.

(** [n] little-endian bytes of [z]. *)
Fixpoint le_bytes (n : nat) (z : Z) : list byte :=
  match n with
  | O => []
  | S n' => byte_of_Z z :: le_bytes n' (z / 256)
  end.

(** A memory made of segments, each a base address and its bytes; every
    other address is unreadable. *)
Fixpoint segments_read (segs : list (Z * list byte)) (a : Z) : option byte :=
  match segs with
  | [] => None
  | (base, bytes) :: rest =>
      if (base <=? a) && (a <? base + Z.of_nat (List.length bytes))
      then nth_error bytes (Z.to_nat (a - base))
      else segments_read rest a
  end.

Definition target_of (segs : list (Z * list byte)) : SBTarget :=
  {| read_byte := segments_read segs; address_byte_size := 8 |}.

Definition u8 : SBType := TScalar "u8" 1.
Definition u32 : SBType := TScalar "u32" 4.
Definition u64 : SBType := TScalar "u64" 8.
Definition usize : SBType := TScalar "usize" 8.
Definition unit_type : SBType := TStruct "()" 0 [] [].

(** [struct NonNull { pointer: X }], for [X] the raw pointer or, in the
    two-level shape, another wrapper. *)
Definition NonNull_over (x : SBType) : SBType :=
  TStruct "core::ptr::non_null::NonNull" 8 [] [("pointer", (0%N, x))].

(** [struct NonNull<T> { pointer: *const T }] *)
Definition NonNull (t : SBType) : SBType := NonNull_over (TPointer t).

(** [struct NonZero<T>(T)] *)
Definition NonZero (t : SBType) : SBType :=
  TStruct "core::nonzero::NonZero" 8 [t] [("__0", (0%N, t))].

(** *** Hash tables *)

Definition pair_of (k v : SBType) (size voff : N) : SBType :=
  TStruct "(K, V)" size [] [("__0", (0%N, k)); ("__1", (voff, v))].

(** [hashbrown::raw::RawTableInner], current layout: no [data] field. *)
Definition RawTableInner_new : SBType :=
  TStruct "hashbrown::raw::RawTableInner" 32 []
    [("ctrl", (0%N, NonNull u8)); ("bucket_mask", (8%N, usize));
     ("growth_left", (16%N, usize)); ("items", (24%N, usize))].

(** The older layout, with its own [data] pointer. *)
Definition RawTableInner_old (pair : SBType) : SBType :=
  TStruct "hashbrown::raw::RawTable" 40 []
    [("bucket_mask", (0%N, usize)); ("ctrl", (8%N, NonNull u8));
     ("data", (16%N, NonNull pair));
     ("growth_left", (24%N, usize)); ("items", (32%N, usize))].

(** A layout without [bucket_mask]. *)
Definition RawTableInner_no_mask : SBType :=
  TStruct "hashbrown::raw::RawTableInner" 24 []
    [("ctrl", (0%N, NonNull u8));
     ("growth_left", (8%N, usize)); ("items", (16%N, usize))].

Definition RawTable (pair inner : SBType) : SBType :=
  TStruct "hashbrown::raw::RawTable" 40 [pair] [("table", (0%N, inner))].

Definition hashbrown_HashMap (pair inner : SBType) : SBType :=
  TStruct "hashbrown::map::HashMap" 40 [] [("table", (0%N, RawTable pair inner))].

Definition std_HashMap (pair inner : SBType) : SBType :=
  TStruct "std::collections::hash::map::HashMap" 40 []
    [("base", (0%N, hashbrown_HashMap pair inner))].

Definition hashbrown_HashSet (pair inner : SBType) : SBType :=
  TStruct "hashbrown::set::HashSet" 40 [] [("map", (0%N, hashbrown_HashMap pair inner))].

Definition std_HashSet (pair inner : SBType) : SBType :=
  TStruct "std::collections::hash::set::HashSet" 40 []
    [("base", (0%N, hashbrown_HashSet pair inner))].

Definition pair_u64_u64 : SBType := pair_of u64 u64 16 8.
Definition pair_u64_unit : SBType := pair_of u64 unit_type 8 8.

(** Capacity 8, control bytes [0,0x80,0,0x80,0x80,0x80,0,0x80] at 0x2000,
    three items, current layout, header at 0x1000. *)
Definition table8 : SBTarget :=
  target_of
    [ (0x1000, (le_bytes 8 0x2000 ++ le_bytes 8 7 ++ le_bytes 8 4 ++ le_bytes 8 3)%list);
      (0x2000, ["000"; x80; "000"; x80; x80; x80; "000"; x80]%byte) ].

Definition map8 : SBValue := VAtAddress "m" 0x1000 (std_HashMap pair_u64_u64 RawTableInner_new).

(** An empty table: [bucket_mask = 0], no item, and a control pointer to
    the shared group of sixteen [EMPTY] (0xff) bytes, here at 0x3000. *)
Definition empty_table : SBTarget :=
  target_of
    [ (0x1000, (le_bytes 8 0x3000 ++ le_bytes 8 0 ++ le_bytes 8 0 ++ le_bytes 8 0)%list);
      (0x3000, repeat xff 16) ].

(** Capacity 8 with the two end slots occupied, older layout: header at
    0x1000, control bytes at 0x2000, elements from 0x4000 upwards. *)
Definition table_ends_old : SBTarget :=
  target_of
    [ (0x1000, (le_bytes 8 7 ++ le_bytes 8 0x2000 ++ le_bytes 8 0x4000
                ++ le_bytes 8 5 ++ le_bytes 8 2)%list);
      (0x2000, ["000"; x80; x80; x80; x80; x80; x80; "000"]%byte) ].

Definition map_old : SBValue :=
  VAtAddress "m" 0x1000 (std_HashMap pair_u64_u64 (RawTableInner_old pair_u64_u64)).

(** The same two end slots in the current layout: elements lie below the
    control bytes. *)
Definition table_ends_new : SBTarget :=
  target_of
    [ (0x1000, (le_bytes 8 0x2000 ++ le_bytes 8 7 ++ le_bytes 8 5 ++ le_bytes 8 2)%list);
      (0x2000, ["000"; x80; x80; x80; x80; x80; x80; "000"]%byte) ].

(** The header of [table8] with [items = 1] although three slots are
    occupied. *)
Definition table8_one_item : SBTarget :=
  target_of
    [ (0x1000, (le_bytes 8 0x2000 ++ le_bytes 8 7 ++ le_bytes 8 4 ++ le_bytes 8 1)%list);
      (0x2000, ["000"; x80; "000"; x80; x80; x80; "000"; x80]%byte) ].

(** A table whose inner representation has no [bucket_mask]: control
    pointer, [growth_left] and [items = 3]. *)
Definition table_no_mask : SBTarget :=
  target_of
    [ (0x1000, (le_bytes 8 0x2000 ++ le_bytes 8 4 ++ le_bytes 8 3)%list);
      (0x2000, ["000"; x80; "000"; x80; x80; x80; "000"; x80]%byte) ].

Definition map_no_mask : SBValue :=
  VAtAddress "m" 0x1000 (std_HashMap pair_u64_u64 RawTableInner_no_mask).

(** A set of [u64]: [table8] with the keys 7, 8 and 9 in slots 0, 2 and 6,
    eight bytes each, below the control bytes. *)
Definition set8_memory : SBTarget :=
  target_of
    [ (0x1000, (le_bytes 8 0x2000 ++ le_bytes 8 7 ++ le_bytes 8 4 ++ le_bytes 8 3)%list);
      (0x2000 - 64,
        (le_bytes 8 0 ++ le_bytes 8 9 ++ le_bytes 8 0 ++ le_bytes 8 0 ++ le_bytes 8 0
         ++ le_bytes 8 8 ++ le_bytes 8 0 ++ le_bytes 8 7)%list);
      (0x2000, ["000"; x80; "000"; x80; x80; x80; "000"; x80]%byte) ].

Definition set8 : SBValue :=
  VAtAddress "s" 0x1000 (std_HashSet pair_u64_unit RawTableInner_new).

(** *** Slices and vectors *)

Definition PhantomData : SBType := TStruct "core::marker::PhantomData" 0 [] [].

(** [&[T]] as the debugger shows it. *)
Definition slice_of (t : SBType) : SBType :=
  TStruct "&[T]" 16 [t] [("data_ptr", (0%N, TPointer t)); ("length", (8%N, usize))].

(** [struct Unique { pointer: X, _marker }], for the three historical [X]. *)
Definition Unique (x : SBType) : SBType :=
  TStruct "core::ptr::unique::Unique" 8 [] [("pointer", (0%N, x)); ("_marker", (8%N, PhantomData))].

Definition RawVecInner (unique : SBType) : SBType :=
  TStruct "alloc::raw_vec::RawVecInner" 16 []
    [("ptr", (0%N, unique)); ("cap", (8%N, usize))].

Definition RawVec (unique t : SBType) : SBType :=
  TStruct "alloc::raw_vec::RawVec" 16 [t]
    [("inner", (0%N, RawVecInner unique)); ("_marker", (16%N, PhantomData))].

Definition Vec (unique t : SBType) : SBType :=
  TStruct "alloc::vec::Vec" 24 [t]
    [("buf", (0%N, RawVec unique t)); ("len", (16%N, usize))].

(** Three [u32] (10, 20, 30) at 0x1000; at 0x800 a header that reads as a
    slice (pointer, length 3) and as a vector (pointer, capacity 3,
    length 3). *)
Definition three_u32 : SBTarget :=
  target_of
    [ (0x800, (le_bytes 8 0x1000 ++ le_bytes 8 3 ++ le_bytes 8 3)%list);
      (0x1000, (le_bytes 4 10 ++ le_bytes 4 20 ++ le_bytes 4 30)%list) ].

Definition slice3 : SBValue := VAtAddress "s" 0x800 (slice_of u32).

Definition vec3 (unique : SBType) : SBValue := VAtAddress "v" 0x800 (Vec unique u32).

(** The header of [table8] with [items = 5] although three slots are
    occupied. *)
Definition table8_five_items : SBTarget :=
  target_of
    [ (0x1000, (le_bytes 8 0x2000 ++ le_bytes 8 7 ++ le_bytes 8 4 ++ le_bytes 8 5)%list);
      (0x2000, ["000"; x80; "000"; x80; x80; x80; "000"; x80]%byte) ].

(** One slot, occupied: [bucket_mask = 0], one item, control byte 0 at
    0x2000. *)
Definition single_slot_table : SBTarget :=
  target_of
    [ (0x1000, (le_bytes 8 0x2000 ++ le_bytes 8 0 ++ le_bytes 8 0 ++ le_bytes 8 1)%list);
      (0x2000, ["000"]%byte) ].

(** Two slots whose control bytes start at the last address, 2^64 - 1: the
    second one lies at 2^64. *)
Definition table_at_the_top : SBTarget :=
  target_of
    [ (0x1000, (le_bytes 8 (2 ^ 64 - 1) ++ le_bytes 8 1 ++ le_bytes 8 0 ++ le_bytes 8 1)%list);
      (2 ^ 64 - 1, ["000"]%byte) ].

End Fixtures.

Import Fixtures.

(* ================================================================== *)
(** * Properties *)
(* ================================================================== *)

(** ** Facts about the primitives *)

Section PrimitiveFacts.

Example getitem_last : getitem [10; 20; 30] (-1) = Return 30.
Proof. reflexivity. Qed.

Example getitem_past_end : getitem [10; 20; 30] 3 = Raise IndexError.
Proof. reflexivity. Qed.

Example rstrip_brackets : rstrip "]" (lstrip "[" "[[12]]") = "12".
Proof. reflexivity. Qed.

Example str_negative : bracketed (-12) = "[-12]".
Proof. reflexivity. Qed.

Example str_zero : bracketed 0 = "[0]".
Proof. reflexivity. Qed.

Lemma range_In (n i : Z) : In i (range n) <-> 0 <= i < n.
Proof.
  unfold range. rewrite in_map_iff. split.
  - intros [k [<- Hk]]. apply in_seq in Hk. lia.
  - intros Hi. exists (Z.to_nat i). split; [lia|]. apply in_seq. lia.
Qed.

Lemma range_length (n : Z) : List.length (range n) = Z.to_nat n.
Proof. unfold range. now rewrite length_map, length_seq. Qed.

Lemma map_of_nat_seq_sorted (len start : nat) :
  StronglySorted Z.lt (map Z.of_nat (seq start len)).
Proof.
  revert start. induction len as [|len IH]; intros start; simpl.
  - constructor.
  - constructor; [apply IH|].
    apply Forall_forall. intros x Hx.
    apply in_map_iff in Hx. destruct Hx as [k [<- Hk]].
    apply in_seq in Hk. lia.
Qed.

Lemma range_sorted (n : Z) : StronglySorted Z.lt (range n).
Proof. apply map_of_nat_seq_sorted. Qed.

Lemma range_head (n : Z) : 1 <= n -> hd_error (range n) = Some 0.
Proof.
  intros Hn. unfold range.
  destruct (Z.to_nat n) as [|k] eqn:E; [lia|reflexivity].
Qed.

Lemma filter_sorted (p : Z -> bool) (l : list Z) :
  StronglySorted Z.lt l -> StronglySorted Z.lt (filter p l).
Proof.
  induction 1 as [|a l Hs IH Hall]; simpl.
  - constructor.
  - destruct (p a); [|exact IH].
    constructor; [exact IH|].
    apply Forall_forall. intros x Hx. apply filter_In in Hx.
    rewrite Forall_forall in Hall. now apply Hall.
Qed.

Lemma byte_value_range (b : byte) : 0 <= byte_value b < 256.
Proof.
  unfold byte_value. pose proof (Byte.to_N_bounded b). lia.
Qed.

Lemma little_endian_nonneg (bs : list byte) : 0 <= little_endian bs.
Proof.
  induction bs as [|b bs IH]; cbn [little_endian]; [lia|].
  pose proof (byte_value_range b). lia.
Qed.

Lemma GetValueAsUnsigned_range (tgt : SBTarget) (v : SBValue) :
  0 <= GetValueAsUnsigned tgt v < 2 ^ 64.
Proof.
  unfold GetValueAsUnsigned.
  destruct (canonical (GetType v)); try lia;
    destruct (value_bytes tgt v _); try lia;
    apply Z.mod_pos_bound; lia.
Qed.

Lemma GetValueAsUnsigned_invalid (tgt : SBTarget) :
  GetValueAsUnsigned tgt VInvalid = 0.
Proof. reflexivity. Qed.

(** Reading one [unsigned char] at a readable address gives its byte. *)
Lemma unsigned_char_at (tgt : SBTarget) (name : string) (a : Z) :
  GetValueAsUnsigned tgt (VAtAddress name a unsigned_char) =
  match read_byte tgt a with
  | Some b => byte_value b
  | None => 0
  end.
Proof.
  unfold GetValueAsUnsigned. cbn -[Z.pow byte_value read_bytes].
  change (Pos.to_nat 1) with 1%nat. cbn [read_bytes].
  destruct (read_byte tgt a) as [b|]; [|reflexivity].
  pose proof (byte_value_range b).
  cbn [little_endian]. rewrite Z.mod_small; lia.
Qed.

Ltac decide_comparisons :=
  repeat match goal with
         | |- context [?a <? ?b] => destruct (Z.ltb_spec a b); try lia
         | |- context [?a <=? ?b] => destruct (Z.leb_spec a b); try lia
         end;
  cbn [orb].

Lemma getitem_in_range {A : Type} (l : list A) (k : Z) (d : A) :
  0 <= k < Z.of_nat (List.length l) ->
  getitem l k = Return (nth (Z.to_nat k) l d).
Proof.
  intros Hk. unfold getitem. cbv zeta. decide_comparisons.
  destruct (nth_error l (Z.to_nat k)) as [a|] eqn:E3.
  - now rewrite (nth_error_nth _ _ d E3).
  - apply nth_error_None in E3. lia.
Qed.

Lemma getitem_wraps {A : Type} (l : list A) (k : Z) (d : A) :
  - Z.of_nat (List.length l) <= k < 0 ->
  getitem l k = Return (nth (Z.to_nat (k + Z.of_nat (List.length l))) l d).
Proof.
  intros Hk. unfold getitem. cbv zeta. decide_comparisons.
  destruct (nth_error l _) as [a|] eqn:E3.
  - now rewrite (nth_error_nth _ _ d E3).
  - apply nth_error_None in E3. lia.
Qed.

Lemma getitem_raises {A : Type} (l : list A) (k : Z) :
  k < - Z.of_nat (List.length l) \/ Z.of_nat (List.length l) <= k ->
  getitem l k = Raise IndexError.
Proof.
  intros Hk. unfold getitem. cbv zeta. decide_comparisons; reflexivity.
Qed.

(** Indexing a list raises exactly outside [-len, len). *)
Lemma getitem_raises_iff {A : Type} (l : list A) (k : Z) :
  (exists e, getitem l k = Raise e) <->
  k < - Z.of_nat (List.length l) \/ Z.of_nat (List.length l) <= k.
Proof.
  split.
  - intros [e He].
    destruct (Z_lt_dec k (- Z.of_nat (List.length l))) as [|H1]; [now left|].
    destruct (Z_le_dec (Z.of_nat (List.length l)) k) as [|H2]; [now right|].
    destruct l as [|d l']; [cbn [List.length] in *; lia|].
    destruct (Z_lt_dec k 0).
    + rewrite (getitem_wraps _ _ d) in He by lia. discriminate.
    + rewrite (getitem_in_range _ _ d) in He by lia. discriminate.
  - intros H. exists IndexError. now apply getitem_raises.
Qed.

Lemma GetByteSize_nonneg (tgt : SBTarget) (ty : SBType) : 0 <= GetByteSize tgt ty.
Proof. unfold GetByteSize. destruct (canonical ty); lia. Qed.

Lemma CreateValueFromAddress_in_range (base : SBValue) (name : string) (a : Z)
    (ty : SBType) :
  0 <= a < 2 ^ 64 ->
  CreateValueFromAddress base name a ty =
  Return (if IsValid base && type_IsValid ty then value_at name a ty else VInvalid).
Proof.
  intros Ha. unfold CreateValueFromAddress.
  destruct (Z.ltb_spec a 0); [lia|]. destruct (Z.leb_spec (2 ^ 64) a); [lia|].
  cbn [orb]. now destruct (IsValid base && type_IsValid ty).
Qed.

Lemma CreateValueFromAddress_overflow (base : SBValue) (name : string) (a : Z)
    (ty : SBType) :
  a < 0 \/ 2 ^ 64 <= a ->
  CreateValueFromAddress base name a ty = Raise OverflowError.
Proof.
  intros Ha. unfold CreateValueFromAddress.
  destruct (Z.ltb_spec a 0); [reflexivity|].
  destruct (Z.leb_spec (2 ^ 64) a); [reflexivity | lia].
Qed.

Lemma CreateValueFromAddress_returned (base : SBValue) (name : string) (a : Z)
    (ty : SBType) (v : SBValue) :
  CreateValueFromAddress base name a ty = Return v -> 0 <= a < 2 ^ 64.
Proof.
  intros H. destruct (Z_lt_dec a 0) as [L|L];
    [rewrite CreateValueFromAddress_overflow in H by lia; discriminate H|].
  destruct (Z_le_dec (2 ^ 64) a) as [U|U];
    [rewrite CreateValueFromAddress_overflow in H by lia; discriminate H|].
  lia.
Qed.

(** A value made at address 0 reads as 0. *)
Lemma reading_at_null (tgt : SBTarget) (name : string) :
  GetValueAsUnsigned tgt (value_at name 0 unsigned_char) = 0.
Proof. reflexivity. Qed.

End PrimitiveFacts.

(** ** The hash-table provider: what [update] leaves *)

Module HashMapFacts.
Import StdHashMap HashMapHeader.

Ltac update_returned H :=
  unfold update in H;
  destruct (template_args _) as [args|] eqn:Hargs; [|discriminate H];
  destruct (getitem args 0) as [pt|e] eqn:Hpt; [|discriminate H];
  destruct (scan _ _ _ _ _ _) as [outcome found] eqn:Hscan;
  injection H as -> <-.

Lemma control_value_returns (tgt : SBTarget) (c : SBValue) (ty : SBType) (sz i : Z) :
  0 <= GetValueAsUnsigned tgt c + i * sz < 2 ^ 64 ->
  exists value, control_value tgt c ty sz i = Return value.
Proof.
  intros H. unfold control_value. cbv zeta.
  rewrite (CreateValueFromAddress_in_range _ _ _ _ H). cbn [bind]. eauto.
Qed.

Lemma control_value_raises (tgt : SBTarget) (c : SBValue) (ty : SBType) (sz i : Z) :
  GetValueAsUnsigned tgt c + i * sz < 0 \/ 2 ^ 64 <= GetValueAsUnsigned tgt c + i * sz ->
  control_value tgt c ty sz i = Raise OverflowError.
Proof.
  intros H. unfold control_value. cbv zeta.
  now rewrite (CreateValueFromAddress_overflow _ _ _ _ H).
Qed.

Lemma control_value_returned (tgt : SBTarget) (c : SBValue) (ty : SBType)
    (sz i value : Z) :
  control_value tgt c ty sz i = Return value ->
  0 <= GetValueAsUnsigned tgt c + i * sz < 2 ^ 64.
Proof.
  intros H.
  destruct (Z_lt_dec (GetValueAsUnsigned tgt c + i * sz) 0) as [L|L];
    [rewrite control_value_raises in H by lia; discriminate H|].
  destruct (Z_le_dec (2 ^ 64) (GetValueAsUnsigned tgt c + i * sz)) as [U|U];
    [rewrite control_value_raises in H by lia; discriminate H|].
  lia.
Qed.

(** A scan whose reads all return leaves the occupied slots, in order. *)
Lemma scan_returns (tgt : SBTarget) (c : SBValue) (ty : SBType) (sz : Z)
    (indices acc : list Z) :
  (forall i, In i indices -> exists value, control_value tgt c ty sz i = Return value) ->
  scan tgt c ty sz indices acc =
  (Return tt,
   (acc ++ filter (fun i => Z.land (returned (control_value tgt c ty sz i)) 128 =? 0)
             indices)%list).
Proof.
  revert acc. induction indices as [|i rest IH]; intros acc H; cbn [scan filter].
  - now rewrite app_nil_r.
  - destruct (H i (or_introl eq_refl)) as [value E]. rewrite E. cbn [returned].
    rewrite IH by (intros j Hj; apply H; now right).
    destruct (Z.land value 128 =? 0); [|reflexivity].
    now rewrite <- app_assoc.
Qed.

(** A scan that returns has read every slot. *)
Lemma scan_returned (tgt : SBTarget) (c : SBValue) (ty : SBType) (sz : Z)
    (indices acc : list Z) :
  fst (scan tgt c ty sz indices acc) = Return tt ->
  forall i, In i indices -> exists value, control_value tgt c ty sz i = Return value.
Proof.
  revert acc. induction indices as [|i rest IH]; intros acc H j Hj; cbn [scan] in H.
  - destruct Hj.
  - destruct (control_value tgt c ty sz i) as [value|e] eqn:E; [|discriminate H].
    destruct Hj as [<-|Hj]; [eauto|]. now apply (IH _ H).
Qed.

(** The scan of [range(capacity)] returns exactly when the last control
    byte lies below 2^64. *)
Lemma scan_range_returns_iff (tgt : SBTarget) (c : SBValue) (ty : SBType) (sz cap : Z) :
  0 <= sz -> 1 <= cap ->
  fst (scan tgt c ty sz (range cap) []) = Return tt <->
  GetValueAsUnsigned tgt c + (cap - 1) * sz < 2 ^ 64.
Proof.
  intros Hsz Hcap. pose proof (GetValueAsUnsigned_range tgt c) as Hc. split.
  - intros H.
    destruct (scan_returned _ _ _ _ _ _ H (cap - 1)) as [value E];
      [apply range_In; lia|].
    apply control_value_returned in E. lia.
  - intros H. rewrite scan_returns; [reflexivity|].
    intros i Hi. apply range_In in Hi. apply control_value_returns. nia.
Qed.

Lemma scan_outcome (tgt : SBTarget) (c : SBValue) (ty : SBType) (sz : Z)
    (indices acc : list Z) :
  fst (scan tgt c ty sz indices acc) = Return tt \/
  fst (scan tgt c ty sz indices acc) = Raise OverflowError.
Proof.
  revert acc. induction indices as [|i rest IH]; intros acc; cbn [scan]; [now left|].
  destruct (control_value tgt c ty sz i) as [value|e] eqn:E; [apply IH|].
  right. cbn [fst]. f_equal.
  unfold control_value in E. cbv zeta in E.
  destruct (CreateValueFromAddress _ _ _ _) as [v|e'] eqn:C; [discriminate E|].
  cbn [bind] in E. injection E as <-.
  unfold CreateValueFromAddress in C.
  destruct (_ || _); [now injection C as <- |].
  destruct (_ && _); discriminate C.
Qed.

Lemma update_valid_indices (tgt : SBTarget) (self self' : provider) :
  update tgt self = (Return tt, self') ->
  scan tgt (ctrl tgt self) (GetBasicType_unsigned_char (valobj self))
    (GetByteSize tgt (GetBasicType_unsigned_char (valobj self)))
    (range (capacity tgt self)) [] = (Return tt, valid_indices self').
Proof. intros H. update_returned H. reflexivity. Qed.

Lemma update_size (tgt : SBTarget) (self self' : provider) :
  update tgt self = (Return tt, self') -> size self' = items tgt self.
Proof. intros H. update_returned H. reflexivity. Qed.

Lemma update_layout (tgt : SBTarget) (self self' : provider) :
  update tgt self = (Return tt, self') ->
  new_layout self' = negb (IsValid (data_field tgt self)) /\
  valobj self' = valobj self /\ show_values self' = show_values self /\
  cls self' = cls self /\
  pair_type_size self' = GetByteSize tgt (pair_type self').
Proof. intros H. update_returned H. repeat split. Qed.

Lemma capacity_range (tgt : SBTarget) (self : provider) :
  1 <= capacity tgt self <= 2 ^ 64.
Proof.
  unfold capacity, bucket_mask.
  pose proof (GetValueAsUnsigned_range tgt
                (GetChildMemberWithName tgt (inner_table tgt self) "bucket_mask")).
  lia.
Qed.

(** [update] returns exactly when the table's type has a template argument
    and the last control byte lies below 2^64. *)
Lemma update_returns_iff (tgt : SBTarget) (self : provider) :
  fst (update tgt self) = Return tt <->
  template_arguments (GetType (table tgt self)) <> [] /\
  last_control_address tgt self < 2 ^ 64.
Proof.
  pose proof (scan_range_returns_iff tgt (ctrl tgt self)
                (GetBasicType_unsigned_char (valobj self))
                (GetByteSize tgt (GetBasicType_unsigned_char (valobj self)))
                (capacity tgt self) (GetByteSize_nonneg _ _)
                (proj1 (capacity_range tgt self))) as S.
  unfold last_control_address.
  replace (bucket_mask tgt self) with (capacity tgt self - 1) by (unfold capacity; lia).
  unfold update, template_args.
  destruct (template_arguments _) as [|a args]; cbn [getitem fst].
  - split; [discriminate | intros [H _]; congruence].
  - change (getitem (a :: args) 0) with (Return a).
    fold (inner_table tgt self). fold (ctrl tgt self). fold (bucket_mask tgt self).
    fold (capacity tgt self).
    destruct (scan _ _ _ _ _ _) as [outcome found] eqn:E. cbn [fst] in *.
    rewrite S. split; [intros H; split; [discriminate | exact H] | intros [_ H]; exact H].
Qed.

Lemma update_total (tgt : SBTarget) (self : provider) :
  template_arguments (GetType (table tgt self)) <> [] ->
  last_control_address tgt self < 2 ^ 64 ->
  exists self', update tgt self = (Return tt, self').
Proof.
  intros H L. assert (R : fst (update tgt self) = Return tt)
    by (apply update_returns_iff; now split).
  destruct (update tgt self) as [r self'] eqn:E. cbn [fst] in R. subst r.
  now exists self'.
Qed.

(** After an [update] that returns, every read of the scan returned. *)
Lemma update_reads (tgt : SBTarget) (self self' : provider) (i : Z) :
  update tgt self = (Return tt, self') ->
  0 <= i < capacity tgt self ->
  read_control_byte tgt self i = Return (control_byte tgt self i).
Proof.
  intros H Hi. pose proof (update_valid_indices _ _ _ H) as S.
  assert (F : fst (scan tgt (ctrl tgt self) (GetBasicType_unsigned_char (valobj self))
                     (GetByteSize tgt (GetBasicType_unsigned_char (valobj self)))
                     (range (capacity tgt self)) []) = Return tt) by now rewrite S.
  destruct (scan_returned _ _ _ _ _ _ F i) as [value E]; [now apply range_In|].
  unfold control_byte, read_control_byte. now rewrite E.
Qed.

Lemma update_valid_indices_filter (tgt : SBTarget) (self self' : provider) :
  update tgt self = (Return tt, self') ->
  valid_indices self' = filter (occupied tgt self) (range (capacity tgt self)).
Proof.
  intros H. pose proof (update_valid_indices _ _ _ H) as S.
  rewrite scan_returns in S.
  - injection S as <-. reflexivity.
  - apply scan_returned with (acc := []). now rewrite S.
Qed.

(** The control byte is the byte of memory at [control_base + i]; it is 0
    when that address cannot be read, is 0, or is no unsigned 64-bit
    number. *)
Lemma control_byte_memory (tgt : SBTarget) (self : provider) (i : Z) :
  IsValid (valobj self) = true -> IsValid (ctrl tgt self) = true ->
  control_byte tgt self i =
  let a := GetValueAsUnsigned tgt (ctrl tgt self) + i in
  if (a <? 0) || (2 ^ 64 <=? a) || (a =? 0) then 0
  else match read_byte tgt a with
       | Some b => byte_value b
       | None => 0
       end.
Proof.
  intros Hv Hc. cbv zeta.
  unfold control_byte, read_control_byte, control_value, GetBasicType_unsigned_char.
  rewrite Hv. cbv zeta.
  change (GetByteSize tgt unsigned_char) with 1. rewrite Z.mul_1_r.
  set (a := GetValueAsUnsigned tgt (ctrl tgt self) + i).
  unfold CreateValueFromAddress.
  destruct ((a <? 0) || (2 ^ 64 <=? a)); [reflexivity|].
  rewrite Hc. cbn [type_IsValid unsigned_char andb orb bind].
  unfold value_at. destruct (Z.eqb_spec a 0) as [->|N]; [reflexivity|].
  apply unsigned_char_at.
Qed.

Lemma element_address_eq (tgt : SBTarget) (self : provider) (k : Z) :
  0 <= k < Z.of_nat (List.length (valid_indices self)) ->
  element_address tgt self k =
  Return (GetValueAsUnsigned tgt (data_ptr self)
          + (if new_layout self
             then - (nth (Z.to_nat k) (valid_indices self) 0 + 1)
             else nth (Z.to_nat k) (valid_indices self) 0)
            * pair_type_size self).
Proof.
  intros Hk. unfold element_address.
  now rewrite (getitem_in_range _ _ 0 Hk).
Qed.

Lemma update_outcome (tgt : SBTarget) (self : provider) :
  fst (update tgt self) = Return tt \/
  fst (update tgt self) = Raise TypeError \/
  fst (update tgt self) = Raise OverflowError.
Proof.
  unfold update, template_args.
  destruct (template_arguments _) as [|a args]; cbn [getitem fst]; [auto|].
  change (getitem (a :: args) 0) with (Return a).
  match goal with
  | |- context [scan ?t ?c ?ty ?sz ?l ?acc] =>
      destruct (scan_outcome t c ty sz l acc) as [R|R];
      destruct (scan t c ty sz l acc) as [outcome found]
  end; cbn [fst] in *; auto.
Qed.

(** [self.size] is assigned before anything can raise. *)
Lemma update_size_always (tgt : SBTarget) (self : provider) :
  size (snd (update tgt self)) = items tgt self.
Proof.
  unfold update, template_args.
  destruct (template_arguments _) as [|a args]; cbn [getitem snd]; [reflexivity|].
  change (getitem (a :: args) 0) with (Return a).
  destruct (scan _ _ _ _ _ _) as [outcome found]. reflexivity.
Qed.

Lemma child_creation (tgt : SBTarget) (self : provider) (k address : Z) :
  element_address tgt self k = Return address ->
  (0 <= address < 2 ^ 64 ->
   get_child_at_index tgt self k =
   let element :=
     if IsValid (data_ptr self) && type_IsValid (pair_type self)
     then value_at (bracketed k) address (pair_type self) else VInvalid in
   if show_values self then Return element
   else Return (CreateValueFromData (valobj self) (bracketed k)
                  (GetData tgt (GetChildAtIndex tgt element 0))
                  (GetType (GetChildAtIndex tgt element 0)))) /\
  (address < 0 \/ 2 ^ 64 <= address ->
   get_child_at_index tgt self k = Raise OverflowError).
Proof.
  intros E. unfold get_child_at_index. rewrite E. cbn [bind]. split; intros H.
  - now rewrite (CreateValueFromAddress_in_range _ _ _ _ H).
  - now rewrite (CreateValueFromAddress_overflow _ _ _ _ H).
Qed.

(** C1: after an [update] that returns, [valid_indices] is the list of the
    physical slots [i] of [range(capacity)] whose control byte has its high
    bit clear ([byte & 0x80 == 0]), in increasing physical order: it is
    strictly increasing, holds no index outside [0, capacity) and no slot
    whose control byte has the high bit set.  The control byte of each of
    these slots is what the scan's read of it returned; for a valid value
    with a valid control pointer it is the byte of memory at
    [control_base + i], and 0 when that address is 0 or cannot be read. *)
Theorem valid_indices_are_the_occupied_slots
    (tgt : SBTarget) (self self' : provider) :
  update tgt self = (Return tt, self') ->
  valid_indices self' = filter (occupied tgt self) (range (capacity tgt self)) /\
  StronglySorted Z.lt (valid_indices self') /\
  (forall i, In i (valid_indices self') <->
             0 <= i < capacity tgt self /\ Z.land (control_byte tgt self i) 128 = 0) /\
  (forall i, 0 <= i < capacity tgt self ->
             read_control_byte tgt self i = Return (control_byte tgt self i)) /\
  (IsValid (valobj self) = true -> IsValid (ctrl tgt self) = true ->
   forall i,
     control_byte tgt self i =
     let a := GetValueAsUnsigned tgt (ctrl tgt self) + i in
     if (a <? 0) || (2 ^ 64 <=? a) || (a =? 0) then 0
     else match read_byte tgt a with
          | Some b => byte_value b
          | None => 0
          end).
Proof.
  intros H.
  pose proof (update_valid_indices_filter _ _ _ H) as E.
  split; [exact E|]. split; [|split; [|split]].
  - rewrite E. apply filter_sorted, range_sorted.
  - intros i. rewrite E, filter_In, range_In. unfold occupied.
    now rewrite Z.eqb_eq.
  - intros i Hi. now apply (update_reads _ _ _ _ H).
  - intros Hv Hc i. now apply control_byte_memory.
Qed.

Lemma valid_indices_are_the_occupied_slots_witness :
  let self := fresh StdHashMapSyntheticProvider map8 true in
  let self' := snd (update table8 self) in
  update table8 self = (Return tt, self') /\
  valid_indices self' = [0; 2; 6] /\
  valid_indices self' = filter (occupied table8 self) (range (capacity table8 self)) /\
  StronglySorted Z.lt (valid_indices self').
Proof.
  intros self self'.
  pose proof (valid_indices_are_the_occupied_slots table8 self self' eq_refl)
    as [E [S _]].
  split; [reflexivity|]. split; [reflexivity|]. split; [exact E | exact S].
Defined.

(** C10: the capacity [update] computes is [bucket_mask + 1] over the
    unbounded integers; [bucket_mask] is an unsigned reading, so the
    capacity is at least 1 and never zero.  An [update] that returns has
    read the control byte of each of the slots [0 .. bucket_mask], slot 0
    and slot [bucket_mask] among them, and kept exactly those with the high
    bit clear: with [bucket_mask = 0] the one slot is still scanned. *)
Theorem capacity_is_bucket_mask_plus_one
    (tgt : SBTarget) (self self' : provider) :
  update tgt self = (Return tt, self') ->
  exists cap : Z,
    cap = GetValueAsUnsigned tgt
            (GetChildMemberWithName tgt (inner_table tgt self) "bucket_mask") + 1 /\
    1 <= cap <= 2 ^ 64 /\
    valid_indices self' = filter (occupied tgt self) (range cap) /\
    hd_error (range cap) = Some 0 /\
    (1 <= List.length (range cap))%nat /\
    (forall i, 0 <= i <= bucket_mask tgt self ->
               read_control_byte tgt self i = Return (control_byte tgt self i)) /\
    (In 0 (valid_indices self') <-> occupied tgt self 0 = true) /\
    (In (cap - 1) (valid_indices self') <-> occupied tgt self (cap - 1) = true).
Proof.
  intros H. exists (capacity tgt self).
  pose proof (capacity_range tgt self) as B.
  pose proof (update_valid_indices_filter _ _ _ H) as E.
  split; [reflexivity|]. split; [exact B|]. split; [exact E|].
  split; [apply range_head; lia|].
  split; [rewrite range_length; lia|].
  split; [|split].
  - intros i Hi. apply (update_reads _ _ _ _ H). unfold capacity. lia.
  - rewrite E, filter_In, range_In. intuition lia.
  - rewrite E, filter_In, range_In. intuition lia.
Qed.

Lemma capacity_is_bucket_mask_plus_one_witness :
  let self := fresh StdHashMapSyntheticProvider map8 true in
  let self' := snd (update single_slot_table self) in
  update single_slot_table self = (Return tt, self') /\
  bucket_mask single_slot_table self = 0 /\
  valid_indices self' = [0] /\
  valid_indices (snd (update empty_table self)) = [] /\
  exists cap : Z,
    cap = GetValueAsUnsigned single_slot_table
            (GetChildMemberWithName single_slot_table
               (inner_table single_slot_table self) "bucket_mask") + 1 /\
    1 <= cap <= 2 ^ 64 /\
    valid_indices self' = filter (occupied single_slot_table self) (range cap) /\
    hd_error (range cap) = Some 0 /\
    (1 <= List.length (range cap))%nat /\
    (forall i, 0 <= i <= bucket_mask single_slot_table self ->
               read_control_byte single_slot_table self i
               = Return (control_byte single_slot_table self i)) /\
    (In 0 (valid_indices self') <-> occupied single_slot_table self 0 = true) /\
    (In (cap - 1) (valid_indices self') <->
     occupied single_slot_table self (cap - 1) = true).
Proof.
  intros self self'.
  split; [reflexivity|]. split; [reflexivity|]. split; [reflexivity|].
  split; [reflexivity|].
  exact (capacity_is_bucket_mask_plus_one single_slot_table self self' eq_refl).
Defined.

(** C2, as the code has it: the index is looked up in [valid_indices], not
    compared with [num_children].  After an [update] that returns, for
    every [k] with [0 <= k < len(valid_indices)] the address
    [get_child_at_index] computes is
    [element_base + valid_indices[k] * pair_size] in the older layout and
    [element_base - (valid_indices[k] + 1) * pair_size] in the current one,
    where [element_base] is the unsigned reading of [data_ptr] and the
    layout is the current one exactly when the inner table has no [data]
    field; the child is created at that address when it is an unsigned
    64-bit number, and the binding raises [OverflowError] otherwise.  For
    [k >= len(valid_indices)], below [num_children] or not, the lookup
    raises [IndexError] and no address is computed. *)
Theorem element_address_follows_the_layout
    (tgt : SBTarget) (self self' : provider) (k : Z) :
  update tgt self = (Return tt, self') ->
  let found := Z.of_nat (List.length (valid_indices self')) in
  let slot := nth (Z.to_nat k) (valid_indices self') 0 in
  let element_base := GetValueAsUnsigned tgt (data_ptr self') in
  let pair_size := pair_type_size self' in
  (0 <= k < found ->
   (new_layout self' = false ->
    element_address tgt self' k = Return (element_base + slot * pair_size)) /\
   (new_layout self' = true ->
    element_address tgt self' k = Return (element_base - (slot + 1) * pair_size)) /\
   0 <= slot < capacity tgt self /\
   (forall address,
      element_address tgt self' k = Return address ->
      (0 <= address < 2 ^ 64 -> show_values self' = true ->
       get_child_at_index tgt self' k =
       Return (if IsValid (data_ptr self') && type_IsValid (pair_type self')
               then value_at (bracketed k) address (pair_type self')
               else VInvalid)) /\
      (address < 0 \/ 2 ^ 64 <= address ->
       get_child_at_index tgt self' k = Raise OverflowError))) /\
  (found <= k ->
   element_address tgt self' k = Raise IndexError /\
   get_child_at_index tgt self' k = Raise IndexError) /\
  new_layout self' = negb (IsValid (data_field tgt self)) /\
  num_children self' = items tgt self.
Proof.
  intros H found slot element_base pair_size.
  split; [|split; [|split]].
  - intros Hk. pose proof (element_address_eq tgt self' k Hk) as E.
    split; [|split; [|split]].
    + intros L. rewrite E, L. reflexivity.
    + intros L. rewrite E, L. fold slot element_base pair_size. f_equal. lia.
    + assert (Hin : In slot (valid_indices self')) by (apply nth_In; lia).
      clearbody slot.
      rewrite (update_valid_indices_filter _ _ _ H) in Hin.
      apply filter_In in Hin. now apply range_In.
    + intros address Ea. destruct (child_creation tgt self' k address Ea) as [I O].
      split; [|exact O].
      intros Hr Hs. rewrite (I Hr). cbv zeta. now rewrite Hs.
  - intros Hk.
    assert (Ea : element_address tgt self' k = Raise IndexError).
    { unfold element_address. now rewrite getitem_raises by (right; exact Hk). }
    split; [exact Ea|]. unfold get_child_at_index. now rewrite Ea.
  - apply (update_layout _ _ _ H).
  - apply (update_size _ _ _ H).
Qed.

Lemma element_address_follows_the_layout_witness :
  let self := fresh StdHashMapSyntheticProvider map8 true in
  let self' := snd (update table_ends_new self) in
  update table_ends_new self = (Return tt, self') /\
  0 <= 1 < Z.of_nat (List.length (valid_indices self')) /\
  nth 1 (valid_indices self') 0 = 8 - 1 /\
  element_address table_ends_new self' 1 = Return (0x2000 - (7 + 1) * 16) /\
  get_child_at_index table_ends_new self' 1
  = Return (VAtAddress "[1]" (0x2000 - (7 + 1) * 16) pair_u64_u64).
Proof.
  intros self self'.
  assert (R : 0 <= 1 < Z.of_nat (List.length (valid_indices self')))
    by (split; [lia | vm_compute; reflexivity]).
  pose proof (proj1 (element_address_follows_the_layout
                       table_ends_new self self' 1 eq_refl) R) as (_ & N & _ & C).
  split; [reflexivity|]. split; [exact R|]. split; [reflexivity|].
  split; [exact (N eq_refl)|].
  refine (proj1 (C (0x2000 - (7 + 1) * 16) (N eq_refl)) _ eq_refl).
  split; [lia | reflexivity].
Defined.

(** C2 fails as stated: with a header that announces five items over three
    occupied slots, index 3 lies in [0, num_children), and
    [get_child_at_index] raises [IndexError] at the list lookup without
    computing an address. *)
Lemma in_range_index_without_a_slot_raises :
  let self := fresh StdHashMapSyntheticProvider map8 true in
  let self' := snd (update table8_five_items self) in
  update table8_five_items self = (Return tt, self') /\
  num_children self' = 5 /\
  valid_indices self' = [0; 2; 6] /\
  0 <= 3 < num_children self' /\
  element_address table8_five_items self' 3 = Raise IndexError /\
  get_child_at_index table8_five_items self' 3 = Raise IndexError.
Proof.
  intros self self'.
  split; [reflexivity|]. split; [reflexivity|]. split; [reflexivity|].
  split; [split; [lia | reflexivity]|]. split; reflexivity.
Qed.

Example element_address_old_layout_ends :
  let self' := snd (update table_ends_old
                      (fresh StdHashMapSyntheticProvider map_old true)) in
  new_layout self' = false /\ valid_indices self' = [0; 7] /\
  element_address table_ends_old self' 0 = Return (0x4000 + 0 * 16) /\
  element_address table_ends_old self' 1 = Return (0x4000 + 7 * 16).
Proof. repeat split. Qed.

Example element_address_new_layout_ends :
  let self' := snd (update table_ends_new
                      (fresh StdHashMapSyntheticProvider map8 true)) in
  new_layout self' = true /\ valid_indices self' = [0; 7] /\
  element_address table_ends_new self' 0 = Return (0x2000 - 1 * 16) /\
  element_address table_ends_new self' 1 = Return (0x2000 - 8 * 16).
Proof. repeat split. Qed.

(** C4, as the code has it: [update] never compares the two counts.  It
    returns whenever the table's type has a template argument and the
    control bytes lie below 2^64; [num_children] is then the header's
    [items] value and [valid_indices] is what the control-byte scan found,
    whether or not their sizes agree.  When a control byte lies at 2^64 or
    above, the binding raises [OverflowError] out of [update], and
    [num_children] is the header's [items] value all the same. *)
Theorem update_does_not_reconcile_the_counts (tgt : SBTarget) (self : provider) :
  template_arguments (GetType (table tgt self)) <> [] ->
  (last_control_address tgt self < 2 ^ 64 ->
   exists self',
     update tgt self = (Return tt, self') /\
     num_children self' = items tgt self /\
     valid_indices self' = filter (occupied tgt self) (range (capacity tgt self))) /\
  (2 ^ 64 <= last_control_address tgt self ->
   fst (update tgt self) = Raise OverflowError /\
   num_children (snd (update tgt self)) = items tgt self).
Proof.
  intros H. split.
  - intros L. destruct (update_total tgt self H L) as [self' E].
    exists self'. split; [exact E|]. split.
    + apply (update_size _ _ _ E).
    + apply (update_valid_indices_filter _ _ _ E).
  - intros L. split; [|apply update_size_always].
    destruct (update_outcome tgt self) as [R|[R|R]]; [| |exact R].
    + apply update_returns_iff in R. lia.
    + exfalso. unfold update, template_args in R.
      destruct (template_arguments _) as [|a args]; [congruence|].
      change (getitem (a :: args) 0) with (Return a) in R.
      match type of R with
      | context [scan ?t ?c ?ty ?sz ?l ?acc] =>
          destruct (scan_outcome t c ty sz l acc) as [S|S];
          destruct (scan t c ty sz l acc) as [outcome found]
      end; cbn [fst] in *; congruence.
Qed.

Lemma update_does_not_reconcile_the_counts_witness :
  let self := fresh StdHashMapSyntheticProvider map8 true in
  template_arguments (GetType (table table8_one_item self)) <> [] /\
  last_control_address table8_one_item self < 2 ^ 64 /\
  exists self',
    update table8_one_item self = (Return tt, self') /\
    num_children self' = items table8_one_item self /\
    valid_indices self' =
      filter (occupied table8_one_item self) (range (capacity table8_one_item self)).
Proof.
  intros self.
  assert (H : template_arguments (GetType (table table8_one_item self)) <> [])
    by (vm_compute; discriminate).
  assert (L : last_control_address table8_one_item self < 2 ^ 64)
    by (vm_compute; reflexivity).
  split; [exact H|]. split; [exact L|].
  exact (proj1 (update_does_not_reconcile_the_counts table8_one_item self H) L).
Defined.

(** C4 fails as stated: a header that announces one item over three
    occupied slots is accepted.  [update] returns, [num_children] is 1, the
    scan found three slots, and the one in-range child is served. *)
Lemma mismatched_counts_are_accepted :
  let self := fresh StdHashMapSyntheticProvider map8 true in
  let self' := snd (update table8_one_item self) in
  update table8_one_item self = (Return tt, self') /\
  num_children self' = 1 /\
  valid_indices self' = [0; 2; 6] /\
  Z.of_nat (List.length (valid_indices self')) <> num_children self' /\
  exists v, get_child_at_index table8_one_item self' 0 = Return v /\ IsValid v = true.
Proof.
  intros self self'.
  split; [reflexivity|]. split; [reflexivity|]. split; [reflexivity|].
  split; [vm_compute; discriminate|].
  eexists. split; reflexivity.
Qed.

(** C9, as the code has it: a missing [bucket_mask] does not make [update]
    fail.  The absent field reads as 0, so the capacity is 1 and slot 0
    alone is scanned; [update] returns whenever the table's type has a
    template argument, and [num_children] is the header's [items] value. *)
Theorem update_without_bucket_mask (tgt : SBTarget) (self : provider) :
  IsValid (GetChildMemberWithName tgt (inner_table tgt self) "bucket_mask") = false ->
  template_arguments (GetType (table tgt self)) <> [] ->
  exists self',
    update tgt self = (Return tt, self') /\
    capacity tgt self = 1 /\
    valid_indices self' = filter (occupied tgt self) [0] /\
    num_children self' = items tgt self.
Proof.
  intros Hm H.
  assert (C : capacity tgt self = 1).
  { unfold capacity, bucket_mask.
    destruct (GetChildMemberWithName tgt (inner_table tgt self) "bucket_mask");
      [reflexivity | discriminate Hm | discriminate Hm]. }
  assert (L : last_control_address tgt self < 2 ^ 64).
  { unfold last_control_address.
    replace (bucket_mask tgt self) with 0 by (unfold capacity in C; lia).
    pose proof (GetValueAsUnsigned_range tgt (ctrl tgt self)). lia. }
  destruct (update_total tgt self H L) as [self' E].
  exists self'. split; [exact E|]. split; [exact C|]. split.
  - rewrite (update_valid_indices_filter _ _ _ E), C. reflexivity.
  - apply (update_size _ _ _ E).
Qed.

Lemma update_without_bucket_mask_witness :
  let self := fresh StdHashMapSyntheticProvider map_no_mask true in
  IsValid (GetChildMemberWithName table_no_mask (inner_table table_no_mask self)
             "bucket_mask") = false /\
  template_arguments (GetType (table table_no_mask self)) <> [] /\
  exists self',
    update table_no_mask self = (Return tt, self') /\
    capacity table_no_mask self = 1 /\
    valid_indices self' = filter (occupied table_no_mask self) [0] /\
    num_children self' = items table_no_mask self.
Proof.
  intros self.
  assert (H : template_arguments (GetType (table table_no_mask self)) <> [])
    by (vm_compute; discriminate).
  split; [reflexivity|]. split; [exact H|].
  exact (update_without_bucket_mask table_no_mask self eq_refl H).
Defined.

(** C9 fails as stated: for a table without [bucket_mask] whose header
    holds [items = 3], the constructor and [update] return normally and
    [num_children] is 3, not 0. *)
Lemma missing_bucket_mask_is_not_a_failure :
  let self := fresh StdHashMapSyntheticProvider map_no_mask true in
  let self' := snd (update table_no_mask self) in
  IsValid (GetChildMemberWithName table_no_mask (inner_table table_no_mask self)
             "bucket_mask") = false /\
  new_map table_no_mask map_no_mask = Return self' /\
  update table_no_mask self' = (Return tt, self') /\
  num_children self' = 3 /\
  valid_indices self' = [0].
Proof. repeat split. Qed.

(** C8: the set provider is built with [show_values = False], the map
    provider with [True].  For a pair type that is a struct whose first
    field is the key, and an element address that is an unsigned 64-bit
    number, the set provider's [get_child_at_index] does not return the
    pair: it returns a value created from the enclosing value [valobj]
    under the name ["[k]"], made of the key's bytes and carrying the key's
    type, so the second field of the pair is left out.  The map provider
    returns the pair at the element address.  For any other address the
    binding raises [OverflowError] in both. *)
Theorem set_child_is_the_key_of_the_pair
    (tgt : SBTarget) (self : provider) (k address : Z)
    (pname kname : string) (psize koff : N) (pargs : list SBType) (kty : SBType)
    (rest : list (string * (N * SBType))) :
  element_address tgt self k = Return address ->
  IsValid (valobj self) = true ->
  IsValid (data_ptr self) = true ->
  canonical (pair_type self) = TStruct pname psize pargs ((kname, (koff, kty)) :: rest) ->
  type_IsValid kty = true ->
  let pair := value_at (bracketed k) address (pair_type self) in
  let key :=
    if address =? 0 then VFromData kname [] kty
    else VAtAddress kname (address + Z.of_N koff) kty in
  (0 <= address < 2 ^ 64 ->
   (show_values self = false ->
    get_child_at_index tgt self k =
    Return (VFromData (bracketed k) (GetData tgt key) kty)) /\
   (show_values self = true -> get_child_at_index tgt self k = Return pair)) /\
  (address < 0 \/ 2 ^ 64 <= address ->
   get_child_at_index tgt self k = Raise OverflowError) /\
  GetChildAtIndex tgt pair 0 = key /\
  (forall v s, new_set tgt v = Return s ->
               show_values s = false /\ cls s = StdHashSetSyntheticProvider) /\
  (forall v s, new_map tgt v = Return s ->
               show_values s = true /\ cls s = StdHashMapSyntheticProvider).
Proof.
  intros Ha Hv Hd Hp Hk pair key.
  assert (Hpt : type_IsValid (pair_type self) = true).
  { destruct (pair_type self); try reflexivity. discriminate Hp. }
  assert (Hkey : GetChildAtIndex tgt pair 0 = key).
  { unfold GetChildAtIndex, children, pair, key, value_at.
    destruct (address =? 0); cbn [GetType]; rewrite Hp; cbn [map nth field_value];
      [|reflexivity].
    now rewrite skipn_nil, firstn_nil. }
  destruct (child_creation tgt self k address Ha) as [I O].
  split; [|split; [exact O|split; [exact Hkey|split]]].
  - intros Hr. rewrite (I Hr). cbv zeta. rewrite Hd, Hpt. cbn [andb].
    fold pair. split; intros Hs; rewrite Hs; [|reflexivity].
    rewrite Hkey. unfold CreateValueFromData.
    assert (Tk : GetType key = kty) by (unfold key; now destruct (address =? 0)).
    now rewrite Tk, Hv, Hk.
  - intros v s Hn. unfold new_set, init in Hn.
    destruct (update tgt _) as [[[]|e] s'] eqn:E; [|discriminate Hn].
    injection Hn as ->. destruct (update_layout _ _ _ E) as (_ & _ & -> & -> & _).
    split; reflexivity.
  - intros v s Hn. unfold new_map, init in Hn.
    destruct (update tgt _) as [[[]|e] s'] eqn:E; [|discriminate Hn].
    injection Hn as ->. destruct (update_layout _ _ _ E) as (_ & _ & -> & -> & _).
    split; reflexivity.
Qed.

Lemma set_child_is_the_key_of_the_pair_witness :
  let self := snd (update set8_memory (fresh StdHashSetSyntheticProvider set8 false)) in
  new_set set8_memory set8 = Return self /\
  element_address set8_memory self 1 = Return (0x2000 - (2 + 1) * 8) /\
  IsValid (valobj self) = true /\
  IsValid (data_ptr self) = true /\
  canonical (pair_type self) = pair_u64_unit /\
  show_values self = false /\
  get_child_at_index set8_memory self 1 = Return (VFromData "[1]" (le_bytes 8 8) u64).
Proof.
  intros self.
  split; [reflexivity|]. split; [reflexivity|]. split; [reflexivity|].
  split; [reflexivity|]. split; [reflexivity|]. split; [reflexivity|].
  refine (proj1 (proj1 (set_child_is_the_key_of_the_pair set8_memory self 1
                          (0x2000 - (2 + 1) * 8)
                          "(K, V)" "__0" 8 0 [] u64 [("__1", (8%N, unit_type))]
                          eq_refl eq_refl eq_refl eq_refl eq_refl) _) eq_refl).
  split; [lia | reflexivity].
Defined.

Example map_child_is_the_pair :
  let self := snd (update table8 (fresh StdHashMapSyntheticProvider map8 true)) in
  new_map table8 map8 = Return self /\
  get_child_at_index table8 self 2 = Return (VAtAddress "[2]" (0x2000 - 7 * 16) pair_u64_u64).
Proof. repeat split. Qed.

End HashMapFacts.

(** ** Child names: [get_child_index] and ["[%s]" % index] *)

Section NameFacts.

Example get_child_index_examples :
  map StdHashMap.get_child_index ["[12]"; "12"; "[[1]]"; "[]"; "[a]"; "[-1]"; "[007]"]
  = [Return 12; Return 12; Return 1; Return (-1); Return (-1); Return (-1); Return 7].
Proof. reflexivity. Qed.

(** The superscript two passes [isdigit], and [int] rejects it. *)
Example get_child_index_superscript :
  StdHashMap.get_child_index (String (Ascii.ascii_of_N 178) "") = Raise ValueError.
Proof. reflexivity. Qed.

Lemma digit_is_no_bracket (a : ascii) :
  is_digit_char a = true -> Ascii.eqb a "[" = false /\ Ascii.eqb a "]" = false.
Proof.
  destruct a as [[] [] [] [] [] [] [] []]; vm_compute; intros H;
    try discriminate H; split; reflexivity.
Qed.

Lemma decimal_is_digit (a : ascii) : is_decimal_char a = true -> is_digit_char a = true.
Proof. unfold is_digit_char. intros ->. reflexivity. Qed.

Lemma forallb_decimal_digit (s : string) :
  string_forallb is_decimal_char s = true -> string_forallb is_digit_char s = true.
Proof.
  induction s as [|a r IH]; cbn [string_forallb]; [reflexivity|].
  intros H. apply andb_true_iff in H. destruct H as [Ha Hr].
  now rewrite (decimal_is_digit _ Ha), IH.
Qed.

Lemma lstrip_rep (c : ascii) (n : nat) (s : string) :
  lstrip c (rep c n ++ s) = lstrip c s.
Proof.
  induction n as [|n IH]; cbn [rep append lstrip]; [reflexivity|].
  now rewrite Ascii.eqb_refl.
Qed.

Lemma lstrip_decompose (c : ascii) (s : string) :
  exists n, s = rep c n ++ lstrip c s.
Proof.
  induction s as [|a r [n IH]]; cbn [lstrip].
  - now exists O.
  - destruct (Ascii.eqb_spec a c) as [->|_].
    + exists (S n). cbn [rep append]. now rewrite <- IH.
    + now exists O.
Qed.

Lemma rstrip_decompose (c : ascii) (s : string) :
  exists n, s = rstrip c s ++ rep c n.
Proof.
  induction s as [|a r [n IH]]; cbn [rstrip].
  - now exists O.
  - destruct (rstrip c r) as [|b r'] eqn:E.
    + destruct (Ascii.eqb_spec a c) as [->|_].
      * exists (S n). cbn [rep append] in *. now rewrite IH.
      * exists n. cbn [append] in *. now rewrite IH.
    + exists n. cbn [append] in *. now rewrite IH.
Qed.

Lemma rstrip_rep (c : ascii) (n : nat) : rstrip c (rep c n) = EmptyString.
Proof.
  induction n as [|n IH]; cbn [rep rstrip]; [reflexivity|].
  now rewrite IH, Ascii.eqb_refl.
Qed.

Lemma rstrip_app_rep (c : ascii) (s : string) (n : nat) :
  rstrip c (s ++ rep c n) = rstrip c s.
Proof.
  induction s as [|a r IH]; cbn [append rstrip].
  - apply rstrip_rep.
  - now rewrite IH.
Qed.

Lemma rstrip_digits (s : string) :
  string_forallb is_digit_char s = true -> rstrip "]" s = s.
Proof.
  induction s as [|a r IH]; cbn [string_forallb rstrip]; [reflexivity|].
  intros H. apply andb_true_iff in H. destruct H as [Ha Hr].
  rewrite (IH Hr). destruct r; [|reflexivity].
  now rewrite (proj2 (digit_is_no_bracket a Ha)).
Qed.

Lemma isdigit_forallb (s : string) :
  isdigit s = true -> s <> EmptyString /\ string_forallb is_digit_char s = true.
Proof.
  destruct s; [discriminate|]. unfold isdigit. intros H. split; [discriminate|exact H].
Qed.

(** Stripping the brackets of a lenient name leaves its digits. *)
Lemma strip_lenient (a b : nat) (digits : string) :
  isdigit digits = true ->
  rstrip "]" (lstrip "[" (rep "[" a ++ digits ++ rep "]" b)) = digits.
Proof.
  intros H. rewrite lstrip_rep.
  destruct (isdigit_forallb _ H) as [Hne Hall].
  destruct digits as [|d r]; [congruence|].
  cbn [string_forallb] in Hall. apply andb_true_iff in Hall. destruct Hall as [Hd Hr].
  cbn [append lstrip]. rewrite (proj1 (digit_is_no_bracket d Hd)).
  change (String d (r ++ rep "]" b)) with (String d r ++ rep "]" b).
  rewrite rstrip_app_rep. apply rstrip_digits.
  cbn [string_forallb]. now rewrite Hd, Hr.
Qed.

Lemma lenient_form_iff (name : string) :
  lenient_form name <-> isdigit (rstrip "]" (lstrip "[" name)) = true.
Proof.
  split.
  - intros (a & b & digits & -> & H). now rewrite strip_lenient.
  - intros H. destruct (lstrip_decompose "[" name) as [a Ha].
    destruct (rstrip_decompose "]" (lstrip "[" name)) as [b Hb].
    exists a, b, (rstrip "]" (lstrip "[" name)). split; [|exact H].
    now rewrite <- Hb.
Qed.

(** ["%s"] and [int] on non-negative integers. *)

Lemma uint_digits_decimal (d : Decimal.uint) :
  string_forallb is_decimal_char (NilEmpty.string_of_uint d) = true.
Proof. induction d; cbn; auto. Qed.

Ltac ascii_code :=
  match goal with
  | |- context [Z.of_N (N_of_ascii ?c)] =>
      let v := eval vm_compute in (Z.of_N (N_of_ascii c)) in
      change (Z.of_N (N_of_ascii c)) with v
  end.

Lemma uint_value_acc (d : Decimal.uint) (acc : positive) :
  decimal_value (NilEmpty.string_of_uint d) (Z.pos acc) = Z.pos (Pos.of_uint_acc d acc).
Proof.
  revert acc. induction d; intros acc; cbn [NilEmpty.string_of_uint decimal_value Pos.of_uint_acc];
    [reflexivity | rewrite <- IHd; f_equal; ascii_code; lia ..].
Qed.

Lemma uint_value (d : Decimal.uint) :
  decimal_value (NilEmpty.string_of_uint d) 0 = Z.of_N (Pos.of_uint d).
Proof.
  induction d; cbn [NilEmpty.string_of_uint decimal_value Pos.of_uint];
    [reflexivity | exact IHd | cbn [Z.of_N]; exact (uint_value_acc d _) ..].
Qed.

Lemma nilzero_nonnil (d : Decimal.uint) :
  d <> Decimal.Nil -> NilZero.string_of_uint d = NilEmpty.string_of_uint d.
Proof. destruct d; [congruence | reflexivity ..]. Qed.

Lemma str_nonnegative (k : Z) :
  0 <= k ->
  str k <> EmptyString /\
  string_forallb is_decimal_char (str k) = true /\
  decimal_value (str k) 0 = k.
Proof.
  intros Hk. destruct k as [|p|p]; [repeat split; discriminate | | lia].
  unfold str. cbn [Z.to_int NilZero.string_of_int].
  rewrite (nilzero_nonnil _ (DecimalPos.Unsigned.to_uint_nonnil p)).
  split; [|split].
  - pose proof (DecimalPos.Unsigned.to_uint_nonnil p) as Hn.
    destruct (Pos.to_uint p); [congruence | discriminate ..].
  - apply uint_digits_decimal.
  - now rewrite uint_value, DecimalPos.Unsigned.of_to.
Qed.

Lemma isdigit_str (k : Z) : 0 <= k -> isdigit (str k) = true.
Proof.
  intros Hk. destruct (str_nonnegative k Hk) as (Hne & Hd & _).
  unfold isdigit. destruct (str k); [congruence|].
  now apply forallb_decimal_digit.
Qed.

Lemma strip_bracketed (k : Z) :
  0 <= k -> rstrip "]" (lstrip "[" (bracketed k)) = str k.
Proof.
  intros Hk. apply (strip_lenient 1 1 (str k)). now apply isdigit_str.
Qed.

(** The strict form, spelled out: an opening bracket, one or more decimal
    digits, a closing bracket. *)
Lemma digits_then_bracket_spec (r : string) (seen : bool) :
  digits_then_bracket r seen = true <->
  exists digits, r = digits ++ "]" /\
                 string_forallb is_decimal_char digits = true /\
                 (seen = true \/ digits <> EmptyString).
Proof.
  split.
  - revert seen. induction r as [|a r IH]; intros seen; cbn [digits_then_bracket].
    + discriminate.
    + destruct (is_decimal_char a) eqn:D.
      * intros H. destruct (IH _ H) as (ds & -> & Hd & _).
        exists (String a ds). cbn [append string_forallb]. rewrite D, Hd.
        repeat split. right. discriminate.
      * intros H. apply andb_true_iff in H. destruct H as [H Hr].
        apply andb_true_iff in H. destruct H as [Hs Ha].
        apply Ascii.eqb_eq in Ha. subst a. destruct r; [|discriminate].
        exists EmptyString. repeat split. now left.
  - intros (ds & -> & Hd & Hs). revert seen Hs.
    induction ds as [|d ds IH]; intros seen Hs.
    + destruct Hs as [->|Hs]; [reflexivity|congruence].
    + cbn [string_forallb] in Hd. apply andb_true_iff in Hd. destruct Hd as [Hd Hr].
      cbn [append digits_then_bracket]. rewrite Hd. apply (IH Hr). now left.
Qed.

Lemma matches_bracketed_decimal_spec (name : string) :
  matches_bracketed_decimal name = true <->
  exists digits, name = "[" ++ digits ++ "]" /\ digits <> EmptyString /\
                 string_forallb is_decimal_char digits = true.
Proof.
  unfold matches_bracketed_decimal. split.
  - destruct name as [|a r]; [discriminate|].
    intros H. apply andb_true_iff in H. destruct H as [Ha Hr].
    apply Ascii.eqb_eq in Ha. subst a.
    apply digits_then_bracket_spec in Hr. destruct Hr as (ds & -> & Hd & [Hs|Hs]).
    + discriminate.
    + now exists ds.
  - intros (ds & -> & Hne & Hd). cbn [append]. rewrite Ascii.eqb_refl. cbn [andb].
    apply digits_then_bracket_spec. exists ds. repeat split; auto.
Qed.

End NameFacts.

Section NameClaims.

Lemma value_at_name (name : string) (a : Z) (ty : SBType) :
  GetName (value_at name a ty) = name /\ IsValid (value_at name a ty) = true /\
  GetType (value_at name a ty) = ty.
Proof. unfold value_at. destruct (a =? 0); repeat split. Qed.

Lemma created_from_address_name (base : SBValue) (name : string) (a : Z) (ty : SBType)
    (v : SBValue) :
  CreateValueFromAddress base name a ty = Return v ->
  IsValid v = true -> GetName v = name.
Proof.
  unfold CreateValueFromAddress.
  destruct (_ || _); [discriminate|].
  destruct (IsValid base && type_IsValid ty); intros [= <-]; [|discriminate].
  intros _. apply value_at_name.
Qed.

Lemma created_from_data_name (base : SBValue) (name : string) (d : SBData) (ty : SBType) :
  IsValid (CreateValueFromData base name d ty) = true ->
  GetName (CreateValueFromData base name d ty) = name.
Proof.
  unfold CreateValueFromData.
  destruct (IsValid base && type_IsValid ty); [reflexivity | discriminate].
Qed.

(** A child that is created is valid and carries the name it was given. *)
Lemma created_child (base : SBValue) (name : string) (a : Z) (ty : SBType) :
  IsValid base = true -> type_IsValid ty = true -> 0 <= a < 2 ^ 64 ->
  CreateValueFromAddress base name a ty = Return (value_at name a ty) /\
  IsValid (value_at name a ty) = true /\ GetName (value_at name a ty) = name.
Proof.
  intros Hb Ht Ha. rewrite (CreateValueFromAddress_in_range _ _ _ _ Ha), Hb, Ht.
  split; [reflexivity|]. split; apply value_at_name.
Qed.

Lemma get_child_index_decimal (a b : nat) (digits : string) :
  digits <> EmptyString ->
  string_forallb is_decimal_char digits = true ->
  StdHashMap.get_child_index (rep "[" a ++ digits ++ rep "]" b)
  = Return (decimal_value digits 0).
Proof.
  intros Hne Hd.
  assert (Hi : isdigit digits = true).
  { unfold isdigit. destruct digits; [congruence|]. now apply forallb_decimal_digit. }
  unfold StdHashMap.get_child_index. cbv zeta.
  rewrite (strip_lenient a b digits Hi), Hi.
  unfold int_of_digits. now rewrite Hd.
Qed.

(** The three classes carry the same [get_child_index]. *)
Lemma get_child_index_same (name : string) :
  StdSlice.get_child_index name = StdHashMap.get_child_index name /\
  StdVec.get_child_index name = StdHashMap.get_child_index name.
Proof. split; reflexivity. Qed.

(** C6: for every non-negative integer [k], [get_child_at_index] creates
    child [k] under the name ["[k]"] (["[%s]" % k], the decimal notation of
    [k] in brackets) and [get_child_index] maps that name back to [k], in
    each of the three providers.  The child is created, valid and so
    named, whenever the value it is made from and its type are valid and
    its address is an unsigned 64-bit number; the set provider names the
    key it returns the same way. *)
Theorem child_names_round_trip (k : Z) :
  0 <= k ->
  StdSlice.get_child_index (bracketed k) = Return k /\
  StdVec.get_child_index (bracketed k) = Return k /\
  StdHashMap.get_child_index (bracketed k) = Return k /\
  (forall tgt self,
     IsValid (StdSlice.data_ptr self) = true ->
     type_IsValid (StdSlice.element_type self) = true ->
     0 <= GetValueAsUnsigned tgt (StdSlice.data_ptr self)
          + k * StdSlice.element_type_size self < 2 ^ 64 ->
     exists v, StdSlice.get_child_at_index tgt self k = Return v /\
               IsValid v = true /\ GetName v = bracketed k) /\
  (forall tgt self,
     IsValid (StdVec.data_ptr self) = true ->
     type_IsValid (StdVec.element_type self) = true ->
     0 <= GetValueAsUnsigned tgt (StdVec.data_ptr self)
          + k * StdVec.element_type_size self < 2 ^ 64 ->
     exists v, StdVec.get_child_at_index tgt self k = Return v /\
               IsValid v = true /\ GetName v = bracketed k) /\
  (forall tgt self address,
     StdHashMap.element_address tgt self k = Return address ->
     0 <= address < 2 ^ 64 ->
     IsValid (StdHashMap.data_ptr self) = true ->
     type_IsValid (StdHashMap.pair_type self) = true ->
     (StdHashMap.show_values self = true ->
      exists v, StdHashMap.get_child_at_index tgt self k = Return v /\
                IsValid v = true /\ GetName v = bracketed k) /\
     (StdHashMap.show_values self = false ->
      IsValid (StdHashMap.valobj self) = true ->
      type_IsValid
        (GetType (GetChildAtIndex tgt
                    (value_at (bracketed k) address (StdHashMap.pair_type self)) 0))
      = true ->
      exists v, StdHashMap.get_child_at_index tgt self k = Return v /\
                IsValid v = true /\ GetName v = bracketed k)) /\
  (forall tgt self v,
     StdSlice.get_child_at_index tgt self k = Return v ->
     IsValid v = true -> GetName v = bracketed k) /\
  (forall tgt self v,
     StdVec.get_child_at_index tgt self k = Return v ->
     IsValid v = true -> GetName v = bracketed k) /\
  (forall tgt self v,
     StdHashMap.get_child_at_index tgt self k = Return v ->
     IsValid v = true -> GetName v = bracketed k).
Proof.
  intros Hk.
  destruct (str_nonnegative k Hk) as (Hne & Hd & Hv).
  assert (E : StdHashMap.get_child_index (bracketed k) = Return k).
  { rewrite <- Hv at 2. apply (get_child_index_decimal 1 1 (str k) Hne Hd). }
  split; [exact E|]. split; [exact E|]. split; [exact E|].
  split; [|split; [|split; [|split; [|split]]]].
  - intros tgt self Hb Ht Ha. unfold StdSlice.get_child_at_index. cbv zeta.
    destruct (created_child _ (bracketed k) _ _ Hb Ht Ha) as (C & V & N).
    rewrite C. cbn [bind]. eauto.
  - intros tgt self Hb Ht Ha. unfold StdVec.get_child_at_index. cbv zeta.
    destruct (created_child _ (bracketed k) _ _ Hb Ht Ha) as (C & V & N).
    rewrite C. cbn [bind]. eauto.
  - intros tgt self address Ea Ha Hb Ht.
    destruct (created_child _ (bracketed k) _ _ Hb Ht Ha) as (C & V & N).
    unfold StdHashMap.get_child_at_index. rewrite Ea. cbn [bind]. rewrite C. cbn [bind].
    split; intros Hs; rewrite Hs; [eauto|].
    intros Hvo Hkt. unfold CreateValueFromData. rewrite Hvo, Hkt. cbn [andb].
    eexists. repeat split.
  - intros tgt self v. unfold StdSlice.get_child_at_index. cbv zeta.
    destruct (CreateValueFromAddress _ _ _ _) as [w|e] eqn:C; cbn [bind]; [|discriminate].
    intros [= <-]. now apply (created_from_address_name _ _ _ _ _ C).
  - intros tgt self v. unfold StdVec.get_child_at_index. cbv zeta.
    destruct (CreateValueFromAddress _ _ _ _) as [w|e] eqn:C; cbn [bind]; [|discriminate].
    intros [= <-]. now apply (created_from_address_name _ _ _ _ _ C).
  - intros tgt self v. unfold StdHashMap.get_child_at_index.
    destruct (StdHashMap.element_address tgt self k) as [address|e];
      cbn [bind]; [|discriminate].
    destruct (CreateValueFromAddress _ _ _ _) as [w|e] eqn:C; cbn [bind]; [|discriminate].
    destruct (StdHashMap.show_values self); intros [= <-].
    + now apply (created_from_address_name _ _ _ _ _ C).
    + apply created_from_data_name.
Qed.

Lemma child_names_round_trip_witness :
  let s := StdSlice.init three_u32 slice3 in
  let m := snd (StdHashMap.update table8
                  (StdHashMap.fresh StdHashMap.StdHashMapSyntheticProvider map8 true)) in
  0 <= 2 /\ bracketed 2 = "[2]" /\
  StdHashMap.get_child_index "[2]" = Return 2 /\
  StdSlice.get_child_at_index three_u32 s 2 = Return (VAtAddress "[2]" 0x1008 u32) /\
  (exists v, StdSlice.get_child_at_index three_u32 s 2 = Return v /\
             IsValid v = true /\ GetName v = "[2]") /\
  StdHashMap.get_child_at_index table8 m 2
  = Return (VAtAddress "[2]" (0x2000 - 7 * 16) pair_u64_u64) /\
  (exists v, StdHashMap.get_child_at_index table8 m 2 = Return v /\
             IsValid v = true /\ GetName v = "[2]").
Proof.
  intros s m.
  pose proof (child_names_round_trip 2 ltac:(lia)) as (_ & _ & I & S & _ & M & _).
  split; [lia|]. split; [reflexivity|]. split; [exact I|].
  split; [reflexivity|]. split.
  - apply (S three_u32 s);
      [reflexivity | reflexivity | vm_compute; split; [discriminate | reflexivity]].
  - split; [reflexivity|].
    assert (R : 0 <= 0x2000 - 7 * 16 < 2 ^ 64) by lia.
    exact (proj1 (M table8 m (0x2000 - 7 * 16) eq_refl R eq_refl eq_refl) eq_refl).
Defined.

(** C5, as the code has it: [get_child_index] strips every leading ['[']
    and every trailing [']'] before it looks at the digits.  A name that is
    not made of any number of ['['], one or more characters that [isdigit]
    accepts and any number of [']'] resolves to -1 and nothing is raised;
    a name of that form whose digits are decimal resolves to their value,
    with or without brackets. *)
Theorem names_outside_the_lenient_form_are_not_found (name : string) :
  (~ lenient_form name ->
   StdSlice.get_child_index name = Return (-1) /\
   StdVec.get_child_index name = Return (-1) /\
   StdHashMap.get_child_index name = Return (-1)) /\
  (forall (a b : nat) (digits : string),
     name = rep "[" a ++ digits ++ rep "]" b ->
     digits <> EmptyString ->
     string_forallb is_decimal_char digits = true ->
     StdSlice.get_child_index name = Return (decimal_value digits 0) /\
     StdVec.get_child_index name = Return (decimal_value digits 0) /\
     StdHashMap.get_child_index name = Return (decimal_value digits 0)).
Proof.
  split.
  - intros H.
    assert (E : StdHashMap.get_child_index name = Return (-1)).
    { unfold StdHashMap.get_child_index. cbv zeta.
      destruct (isdigit (rstrip "]" (lstrip "[" name))) eqn:D; [|reflexivity].
      exfalso. apply H. now apply lenient_form_iff. }
    repeat split; exact E.
  - intros a b digits -> Hne Hd.
    pose proof (get_child_index_decimal a b digits Hne Hd) as E.
    repeat split; exact E.
Qed.

Lemma names_outside_the_lenient_form_are_not_found_witness :
  ~ lenient_form "[a]" /\
  StdHashMap.get_child_index "[a]" = Return (-1) /\
  StdHashMap.get_child_index "7" = Return 7.
Proof.
  assert (H : ~ lenient_form "[a]").
  { rewrite lenient_form_iff. vm_compute. discriminate. }
  split; [exact H|]. split.
  - exact (proj2 (proj2 (proj1 (names_outside_the_lenient_form_are_not_found "[a]") H))).
  - exact (proj2 (proj2 (proj2 (names_outside_the_lenient_form_are_not_found "7")
                           0%nat 0%nat "7" eq_refl ltac:(discriminate) eq_refl))).
Defined.

(** C5 fails as stated: a bare digit string and a name with repeated
    brackets do not have the form [^\[\d+\]$], and both resolve to an
    index. *)
Lemma unbracketed_names_resolve :
  matches_bracketed_decimal "7" = false /\
  StdHashMap.get_child_index "7" = Return 7 /\
  matches_bracketed_decimal "[[7]]" = false /\
  StdVec.get_child_index "[[7]]" = Return 7 /\
  ~ (forall name, matches_bracketed_decimal name = false ->
                  StdHashMap.get_child_index name = Return (-1)).
Proof.
  repeat split. intros H. specialize (H "7" eq_refl). discriminate H.
Qed.

End NameClaims.

(** ** Slices and vectors *)

Section ArrayFacts.

(** Spec scenario: three four-byte integers at 0x1000. *)
Example vec_of_three :
  let p := StdVec.init three_u32 (vec3 (Unique (NonNull u32))) in
  StdVec.num_children p = 3 /\
  StdVec.get_child_at_index three_u32 p 1 = Return (VAtAddress "[1]" 0x1004 u32) /\
  GetValueAsUnsigned three_u32 (VAtAddress "[1]" 0x1004 u32) = 20.
Proof. repeat split. Qed.

Example slice_of_three :
  let p := StdSlice.init three_u32 slice3 in
  StdSlice.num_children p = 3 /\
  StdSlice.get_child_at_index three_u32 p 2 = Return (VAtAddress "[2]" 0x1008 u32) /\
  GetValueAsUnsigned three_u32 (VAtAddress "[2]" 0x1008 u32) = 30.
Proof. repeat split. Qed.

(** The first field of a struct, when it lies at offset 0. *)
Lemma first_member (tgt : SBTarget) (name sname f : string) (a : Z) (size : N)
    (args : list SBType) (ty : SBType) (rest : list (string * (N * SBType))) :
  GetChildMemberWithName tgt
    (VAtAddress name a (TStruct sname size args ((f, (0%N, ty)) :: rest))) f
  = VAtAddress f a ty.
Proof.
  unfold GetChildMemberWithName, children.
  cbn [GetType canonical map field_value find GetName Z.of_N].
  now rewrite String.eqb_refl, Z.add_0_r.
Qed.

Lemma first_child (tgt : SBTarget) (name sname f : string) (a : Z) (size : N)
    (args : list SBType) (ty : SBType) (rest : list (string * (N * SBType))) :
  GetChildAtIndex tgt
    (VAtAddress name a (TStruct sname size args ((f, (0%N, ty)) :: rest))) 0
  = VAtAddress f a ty.
Proof.
  unfold GetChildAtIndex, children.
  cbn [GetType canonical map field_value nth Z.of_N].
  now rewrite Z.add_0_r.
Qed.

(** The unsigned reading of a located value does not depend on its name. *)
Lemma reading_ignores_name (tgt : SBTarget) (n1 n2 : string) (a : Z) (ty : SBType) :
  GetValueAsUnsigned tgt (VAtAddress n1 a ty) = GetValueAsUnsigned tgt (VAtAddress n2 a ty).
Proof. reflexivity. Qed.

Lemma unwrap_raw (tgt : SBTarget) (name : string) (a : Z) (t : SBType) :
  StdVec.unwrap_unique_or_non_null tgt (VAtAddress name a (Unique (TPointer t)))
  = VAtAddress "pointer" a (TPointer t).
Proof.
  unfold StdVec.unwrap_unique_or_non_null, Unique. cbv zeta.
  rewrite first_member. reflexivity.
Qed.

Lemma unwrap_non_null (tgt : SBTarget) (name : string) (a : Z) (t : SBType) :
  StdVec.unwrap_unique_or_non_null tgt (VAtAddress name a (Unique (NonNull t)))
  = VAtAddress "pointer" a (TPointer t).
Proof.
  unfold StdVec.unwrap_unique_or_non_null, Unique. cbv zeta.
  rewrite first_member. unfold NonNull, NonNull_over.
  cbn [TypeIsPointerType IsPointerType GetType canonical].
  apply first_child.
Qed.

Lemma unwrap_non_zero (tgt : SBTarget) (name : string) (a : Z) (t : SBType) :
  StdVec.unwrap_unique_or_non_null tgt (VAtAddress name a (Unique (NonZero (TPointer t))))
  = VAtAddress "__0" a (TPointer t).
Proof.
  unfold StdVec.unwrap_unique_or_non_null, Unique. cbv zeta.
  rewrite first_member. unfold NonZero.
  cbn [TypeIsPointerType IsPointerType GetType canonical].
  apply first_child.
Qed.

(** The pointer field [update] hands to the unwrapping, for a vector at
    address [a]. *)
Lemma vec_ptr_field (tgt : SBTarget) (name : string) (a : Z) (unique t : SBType) :
  GetChildMemberWithName tgt
    (GetChildMemberWithName tgt
       (GetChildMemberWithName tgt (VAtAddress name a (Vec unique t)) "buf") "inner")
    "ptr"
  = VAtAddress "ptr" a unique.
Proof.
  unfold Vec. rewrite first_member. unfold RawVec. rewrite first_member.
  unfold RawVecInner. now rewrite first_member.
Qed.

Lemma vec_data_ptr (tgt : SBTarget) (name : string) (a : Z) (unique t : SBType) :
  StdVec.data_ptr (StdVec.init tgt (VAtAddress name a (Vec unique t)))
  = StdVec.unwrap_unique_or_non_null tgt (VAtAddress "ptr" a unique).
Proof.
  unfold StdVec.init, StdVec.update. cbn [StdVec.data_ptr StdVec.valobj].
  now rewrite vec_ptr_field.
Qed.

(** C7, as the code has it: the unwrapping takes the [pointer] member and
    descends at most one level.  In the three layouts of the class's
    docstring ([pointer] a raw pointer; [pointer] a [NonNull] holding the
    raw pointer; [pointer] a [NonZero] holding the raw pointer) it returns
    the raw pointer, and a vector at the same address over the same memory
    gets the same data address in all three: the reading of the pointer
    stored there. *)
Theorem unwrap_reaches_the_raw_pointer_one_level_down
    (tgt : SBTarget) (name : string) (a : Z) (t : SBType) :
  let raw := TPointer t in
  let start (unique : SBType) :=
    GetValueAsUnsigned tgt
      (StdVec.data_ptr (StdVec.init tgt (VAtAddress name a (Vec unique t)))) in
  StdVec.unwrap_unique_or_non_null tgt (VAtAddress name a (Unique raw))
    = VAtAddress "pointer" a raw /\
  StdVec.unwrap_unique_or_non_null tgt (VAtAddress name a (Unique (NonNull t)))
    = VAtAddress "pointer" a raw /\
  StdVec.unwrap_unique_or_non_null tgt (VAtAddress name a (Unique (NonZero raw)))
    = VAtAddress "__0" a raw /\
  start (Unique raw) = GetValueAsUnsigned tgt (VAtAddress "pointer" a raw) /\
  start (Unique (NonNull t)) = start (Unique raw) /\
  start (Unique (NonZero raw)) = start (Unique raw).
Proof.
  intros raw start. unfold start, raw.
  rewrite !vec_data_ptr, !unwrap_raw, !unwrap_non_null, !unwrap_non_zero.
  repeat split; reflexivity.
Qed.

(** C7 fails as stated for the two-level shape: when [pointer] is a wrapper
    around a [NonZero] around the raw pointer, the unwrapping stops at the
    [NonZero], which is no pointer and has no scalar reading, so the data
    address is 0 where the one-level shapes give 0x1000. *)
Lemma two_level_wrapper_is_not_unwrapped :
  let two_level := Unique (NonNull_over (NonZero (TPointer u32))) in
  let one := StdVec.init three_u32 (vec3 (Unique (TPointer u32))) in
  let two := StdVec.init three_u32 (vec3 two_level) in
  GetValueAsUnsigned three_u32 (StdVec.data_ptr one) = 0x1000 /\
  StdVec.data_ptr two = VAtAddress "pointer" 0x800 (NonZero (TPointer u32)) /\
  TypeIsPointerType (StdVec.data_ptr two) = false /\
  GetValueAsUnsigned three_u32 (StdVec.data_ptr two) = 0 /\
  StdVec.get_child_at_index three_u32 one 1 = Return (VAtAddress "[1]" 0x1004 u32) /\
  StdVec.get_child_at_index three_u32 two 1 = Return (VAtAddress "[1]" 4 u32).
Proof. repeat split. Qed.

(** The slice and the vector provider make a child from any integer index:
    the only thing that can stop them is the address leaving the 64-bit
    range. *)
Lemma slice_child (tgt : SBTarget) (self : StdSlice.provider) (i : Z) :
  StdSlice.get_child_at_index tgt self i =
  CreateValueFromAddress (StdSlice.data_ptr self) (bracketed i)
    (GetValueAsUnsigned tgt (StdSlice.data_ptr self) + i * StdSlice.element_type_size self)
    (StdSlice.element_type self).
Proof.
  unfold StdSlice.get_child_at_index. cbv zeta.
  now destruct (CreateValueFromAddress _ _ _ _).
Qed.

Lemma vec_child (tgt : SBTarget) (self : StdVec.provider) (i : Z) :
  StdVec.get_child_at_index tgt self i =
  CreateValueFromAddress (StdVec.data_ptr self) (bracketed i)
    (GetValueAsUnsigned tgt (StdVec.data_ptr self) + i * StdVec.element_type_size self)
    (StdVec.element_type self).
Proof.
  unfold StdVec.get_child_at_index. cbv zeta.
  now destruct (CreateValueFromAddress _ _ _ _).
Qed.

(** C3, as the code has it: no provider compares an index with
    [num_children].  The slice and the vector provider take any integer
    and compute [start + index * element_type_size]: with a valid data
    pointer and element type the child is the value at that address,
    inside the sequence or not, as long as the address lies in
    [0, 2^64); when it does not, creating the value raises
    [OverflowError].  The hash-table provider raises [IndexError] exactly
    when the index is outside [-len(valid_indices), len(valid_indices)),
    from the list lookup and before an address is computed; inside those
    bounds the address is computed, and the call returns a child when
    that address lies in [0, 2^64) and raises [OverflowError] when it
    does not. *)
Theorem only_the_list_lookup_rejects_an_index :
  (forall (tgt : SBTarget) (self : StdSlice.provider) (i : Z),
     let address := GetValueAsUnsigned tgt (StdSlice.data_ptr self)
                    + i * StdSlice.element_type_size self in
     IsValid (StdSlice.data_ptr self) = true ->
     type_IsValid (StdSlice.element_type self) = true ->
     (0 <= address < 2 ^ 64 ->
      StdSlice.get_child_at_index tgt self i =
      Return (value_at (bracketed i) address (StdSlice.element_type self))) /\
     (address < 0 \/ 2 ^ 64 <= address ->
      StdSlice.get_child_at_index tgt self i = Raise OverflowError)) /\
  (forall (tgt : SBTarget) (self : StdVec.provider) (i : Z),
     let address := GetValueAsUnsigned tgt (StdVec.data_ptr self)
                    + i * StdVec.element_type_size self in
     IsValid (StdVec.data_ptr self) = true ->
     type_IsValid (StdVec.element_type self) = true ->
     (0 <= address < 2 ^ 64 ->
      StdVec.get_child_at_index tgt self i =
      Return (value_at (bracketed i) address (StdVec.element_type self))) /\
     (address < 0 \/ 2 ^ 64 <= address ->
      StdVec.get_child_at_index tgt self i = Raise OverflowError)) /\
  (forall (tgt : SBTarget) (self : StdHashMap.provider) (k : Z),
     let n := Z.of_nat (List.length (StdHashMap.valid_indices self)) in
     (k < - n \/ n <= k ->
      StdHashMap.element_address tgt self k = Raise IndexError /\
      StdHashMap.get_child_at_index tgt self k = Raise IndexError) /\
     (- n <= k < n ->
      exists address,
        StdHashMap.element_address tgt self k = Return address /\
        (0 <= address < 2 ^ 64 ->
         exists v, StdHashMap.get_child_at_index tgt self k = Return v) /\
        (address < 0 \/ 2 ^ 64 <= address ->
         StdHashMap.get_child_at_index tgt self k = Raise OverflowError))).
Proof.
  split; [|split].
  - intros tgt self i address Hd Ht. rewrite slice_child. fold address. split; intros Ha.
    + exact (proj1 (created_child _ _ _ _ Hd Ht Ha)).
    + now apply CreateValueFromAddress_overflow.
  - intros tgt self i address Hd Ht. rewrite vec_child. fold address. split; intros Ha.
    + exact (proj1 (created_child _ _ _ _ Hd Ht Ha)).
    + now apply CreateValueFromAddress_overflow.
  - intros tgt self k n. split.
    + intros Hk. unfold StdHashMap.get_child_at_index, StdHashMap.element_address.
      cbv zeta. rewrite (getitem_raises _ _ Hk). split; reflexivity.
    + intros Hk.
      destruct (StdHashMap.element_address tgt self k) as [address|e] eqn:E.
      * exists address. split; [reflexivity|].
        unfold StdHashMap.get_child_at_index. rewrite E. cbn [bind]. split; intros Ha.
        -- rewrite (CreateValueFromAddress_in_range _ _ _ _ Ha). cbn [bind].
           destruct (StdHashMap.show_values self); eexists; reflexivity.
        -- now rewrite (CreateValueFromAddress_overflow _ _ _ _ Ha).
      * exfalso. unfold StdHashMap.element_address in E. cbv zeta in E.
        destruct (getitem (StdHashMap.valid_indices self) k) as [slot|e'] eqn:G.
        -- cbn [bind] in E. destruct (StdHashMap.new_layout self); discriminate E.
        -- assert (Hr : exists e, getitem (StdHashMap.valid_indices self) k = Raise e)
             by (now exists e').
           apply getitem_raises_iff in Hr. fold n in Hr. lia.
Qed.

Lemma only_the_list_lookup_rejects_an_index_witness :
  let p := StdSlice.init three_u32 slice3 in
  IsValid (StdSlice.data_ptr p) = true /\
  type_IsValid (StdSlice.element_type p) = true /\
  StdSlice.num_children p = 3 /\
  StdSlice.get_child_at_index three_u32 p 3
  = Return (VAtAddress "[3]" (0x1000 + 3 * 4) u32) /\
  StdSlice.get_child_at_index three_u32 p (-1025) = Raise OverflowError.
Proof.
  intros p. split; [reflexivity|]. split; [reflexivity|]. split; [reflexivity|].
  pose proof (proj1 only_the_list_lookup_rejects_an_index three_u32 p) as H. split.
  - refine (proj1 (H 3 eq_refl eq_refl) _). vm_compute. split; [discriminate | reflexivity].
  - refine (proj2 (H (-1025) eq_refl eq_refl) _). left. reflexivity.
Defined.

(** C3 fails as stated: the slice and the vector of three elements serve
    index 3 and index -1, at addresses outside the sequence, and the hash
    table of three items serves index -1 (the last valid slot), all
    without an error; and the error an index far outside the sequence
    gets from the slice is [OverflowError], from the address, not a
    rejection of the index. *)
Lemma out_of_range_children_are_served :
  let s := StdSlice.init three_u32 slice3 in
  let v := StdVec.init three_u32 (vec3 (Unique (NonNull u32))) in
  let m := snd (StdHashMap.update table8
                  (StdHashMap.fresh StdHashMap.StdHashMapSyntheticProvider map8 true)) in
  StdSlice.num_children s = 3 /\
  StdSlice.get_child_at_index three_u32 s 3
  = Return (VAtAddress "[3]" (0x1000 + 12) u32) /\
  StdSlice.get_child_at_index three_u32 s (-1)
  = Return (VAtAddress "[-1]" (0x1000 - 4) u32) /\
  StdSlice.get_child_at_index three_u32 s (-1024) = Return (value_at "[-1024]" 0 u32) /\
  StdSlice.get_child_at_index three_u32 s (-1025) = Raise OverflowError /\
  StdVec.num_children v = 3 /\
  StdVec.get_child_at_index three_u32 v 3
  = Return (VAtAddress "[3]" (0x1000 + 12) u32) /\
  StdHashMap.num_children m = 3 /\
  StdHashMap.get_child_at_index table8 m (-1)
  = Return (VAtAddress "[-1]" (0x2000 - 7 * 16) pair_u64_u64).
Proof. repeat split. Qed.

End ArrayFacts.

(** ** The hash-table provider: failure, recomputation and addresses *)

Module HashMapMore.
Import StdHashMap HashMapHeader HashMapFacts.

Lemma same_shape_refl (v : SBValue) : same_shape v v.
Proof. repeat split. Qed.

Lemma field_value_shape (tgt tgt' : SBTarget) (v w : SBValue)
    (f : string * (N * SBType)) :
  IsValid v = true -> IsValid w = true ->
  same_shape (field_value tgt v f) (field_value tgt' w f).
Proof.
  destruct f as [fname [off fty]].
  destruct v; destruct w; try discriminate; intros _ _; repeat split.
Qed.

Lemma fields_shape (tgt tgt' : SBTarget) (v w : SBValue)
    (fields : list (string * (N * SBType))) :
  IsValid v = true -> IsValid w = true ->
  Forall2 same_shape (map (field_value tgt v) fields) (map (field_value tgt' w) fields).
Proof.
  intros Hv Hw. induction fields as [|f fs IH]; cbn [map]; constructor.
  - now apply field_value_shape.
  - exact IH.
Qed.

Lemma children_shape (tgt tgt' : SBTarget) (v w : SBValue) :
  same_shape v w -> Forall2 same_shape (children tgt v) (children tgt' w).
Proof.
  intros (Hv & Hn & Ht). unfold children.
  destruct v as [|n a ty|n d ty]; destruct w as [|n' a' ty'|n' d' ty'];
    try discriminate Hv; try constructor;
    cbn [GetType GetName] in *; subst ty' n';
    (destruct (canonical ty) as [| | pointee | |sn ss sa fields]; try constructor;
     [ destruct (canonical pointee) as [| | | |pn ps pa pfields];
       try constructor; try (repeat split; fail); try constructor;
       apply fields_shape; reflexivity
     | apply fields_shape; reflexivity ]).
Qed.

Lemma find_shape (name : string) (l l' : list SBValue) :
  Forall2 same_shape l l' ->
  same_shape
    (match find (fun c => String.eqb (GetName c) name) l with
     | Some c => c | None => VInvalid end)
    (match find (fun c => String.eqb (GetName c) name) l' with
     | Some c => c | None => VInvalid end).
Proof.
  induction 1 as [|c c' l l' Hc Hl IH]; cbn [find].
  - apply same_shape_refl.
  - destruct Hc as (Hv & Hn & Ht). rewrite <- Hn.
    destruct (String.eqb (GetName c) name); [repeat split; assumption | exact IH].
Qed.

(** The shape of a member depends on the shape of the value alone. *)
Lemma member_shape (tgt tgt' : SBTarget) (v w : SBValue) (name : string) :
  same_shape v w ->
  same_shape (GetChildMemberWithName tgt v name) (GetChildMemberWithName tgt' w name).
Proof.
  intros H. unfold GetChildMemberWithName. apply find_shape. now apply children_shape.
Qed.

Lemma table_shape (tgt tgt' : SBTarget) (self other : provider) :
  cls other = cls self -> valobj other = valobj self ->
  same_shape (table tgt self) (table tgt' other).
Proof.
  intros Hc Hv. unfold table. rewrite Hc, Hv.
  destruct (cls self); repeat apply member_shape; apply same_shape_refl.
Qed.

Lemma update_raises_iff (tgt : SBTarget) (self : provider) :
  fst (update tgt self) = Raise TypeError <->
  template_arguments (GetType (table tgt self)) = [].
Proof.
  unfold update, template_args.
  destruct (template_arguments _) as [|a args]; cbn [getitem fst].
  - split; reflexivity.
  - change (getitem (a :: args) 0) with (Return a).
    match goal with
    | |- context [scan ?t ?c ?ty ?sz ?l ?acc] =>
        destruct (scan_outcome t c ty sz l acc) as [R|R];
        destruct (scan t c ty sz l acc) as [outcome found]
    end; cbn [fst] in *; subst outcome; split; discriminate.
Qed.

(** With a template argument, the one exception [update] can raise is the
    [OverflowError] of a control byte at or above 2^64. *)
Lemma update_overflows_iff (tgt : SBTarget) (self : provider) :
  template_arguments (GetType (table tgt self)) <> [] ->
  (fst (update tgt self) = Return tt <-> last_control_address tgt self < 2 ^ 64) /\
  (fst (update tgt self) = Raise OverflowError <-> 2 ^ 64 <= last_control_address tgt self).
Proof.
  intros Ha.
  pose proof (update_returns_iff tgt self) as R.
  pose proof (update_raises_iff tgt self) as T.
  assert (D : last_control_address tgt self < 2 ^ 64 \/
              2 ^ 64 <= last_control_address tgt self) by lia.
  destruct (update_outcome tgt self) as [E|[E|E]].
  - pose proof (proj1 R E) as [_ L].
    split; split; intros H; try assumption; try lia.
    rewrite E in H. discriminate H.
  - now apply T in E.
  - assert (L : 2 ^ 64 <= last_control_address tgt self).
    { destruct D as [L|L]; [|exact L].
      rewrite (proj2 R (conj Ha L)) in E. discriminate E. }
    split; split; intros H; try assumption; try lia.
    rewrite E in H. discriminate H.
Qed.

Lemma update_keeps_identity (tgt : SBTarget) (self : provider) :
  cls (snd (update tgt self)) = cls self /\
  valobj (snd (update tgt self)) = valobj self /\
  show_values (snd (update tgt self)) = show_values self.
Proof.
  unfold update, template_args.
  destruct (template_arguments _) as [|a args]; cbn [getitem snd]; [auto|].
  change (getitem (a :: args) 0) with (Return a).
  destruct (scan _ _ _ _ _ _) as [outcome found]. auto.
Qed.

Lemma member_of_invalid (tgt : SBTarget) (name : string) :
  GetChildMemberWithName tgt VInvalid name = VInvalid.
Proof. reflexivity. Qed.

Lemma invalid_value (v : SBValue) : IsValid v = false -> v = VInvalid.
Proof. destruct v; [reflexivity | discriminate ..]. Qed.

Lemma init_outcome (tgt : SBTarget) (c : class) (v : SBValue) (show : bool) :
  (fst (update tgt (fresh c v show)) = Return tt ->
   init tgt c v show = Return (snd (update tgt (fresh c v show)))) /\
  (forall e, fst (update tgt (fresh c v show)) = Raise e ->
             init tgt c v show = Raise e).
Proof.
  unfold init. destruct (update tgt (fresh c v show)) as [[[]|e] s']; cbn [fst snd];
    split; try congruence; intros e' [= ->]; reflexivity.
Qed.

(** X1: a value without a [base] member has no table: [update] raises
    [TypeError] at [template_args[0]], and both constructors raise with
    it. *)
Theorem no_base_member_raises_TypeError (tgt : SBTarget) (v : SBValue) :
  IsValid (GetChildMemberWithName tgt v "base") = false ->
  new_map tgt v = Raise TypeError /\
  new_set tgt v = Raise TypeError /\
  (forall self, valobj self = v -> fst (update tgt self) = Raise TypeError).
Proof.
  intros H. apply invalid_value in H.
  assert (U : forall self, valobj self = v -> fst (update tgt self) = Raise TypeError).
  { intros self Hv. apply update_raises_iff. unfold table. rewrite Hv, H.
    destruct (cls self); reflexivity. }
  split; [|split; [|exact U]].
  - apply init_outcome, U. reflexivity.
  - apply init_outcome, U. reflexivity.
Qed.

Lemma no_base_member_raises_TypeError_witness :
  IsValid (GetChildMemberWithName three_u32 slice3 "base") = false /\
  new_map three_u32 slice3 = Raise TypeError /\
  new_set three_u32 slice3 = Raise TypeError.
Proof.
  split; [reflexivity|].
  pose proof (no_base_member_raises_TypeError three_u32 slice3 eq_refl) as (M & S & _).
  split; [exact M | exact S].
Defined.

(** X2: whether [update] raises [TypeError] is decided by the class and by
    the type of [valobj], never by the memory: once a constructor has
    returned an instance, no later [update] of it raises [TypeError], in
    any state of the process.  The one failure left is the address of a
    control byte: such an [update] returns when the last control byte lies
    below 2^64 and raises [OverflowError] when it does not. *)
Theorem constructed_provider_raises_only_on_overflow
    (tgt : SBTarget) (c : class) (v : SBValue) (show : bool) (self : provider) :
  init tgt c v show = Return self ->
  forall (tgt' : SBTarget) (other : provider),
    cls other = c -> valobj other = v ->
    fst (update tgt' other) <> Raise TypeError /\
    (fst (update tgt' other) = Return tt <->
     last_control_address tgt' other < 2 ^ 64) /\
    (fst (update tgt' other) = Raise OverflowError <->
     2 ^ 64 <= last_control_address tgt' other) /\
    cls (snd (update tgt' other)) = c /\
    valobj (snd (update tgt' other)) = v.
Proof.
  intros Hi tgt' other Hc Hv.
  assert (H0 : fst (update tgt (fresh c v show)) <> Raise TypeError).
  { intros E. rewrite (proj2 (init_outcome tgt c v show) _ E) in Hi. discriminate Hi. }
  assert (Ht : GetType (table tgt' other) = GetType (table tgt (fresh c v show))).
  { symmetry. apply (table_shape tgt tgt' (fresh c v show) other); assumption. }
  assert (Ha : template_arguments (GetType (table tgt' other)) <> []).
  { intros E. apply H0, update_raises_iff. now rewrite <- Ht. }
  split; [|split; [|split]].
  - intros E. now apply update_raises_iff in E.
  - apply (update_overflows_iff tgt' other Ha).
  - apply (update_overflows_iff tgt' other Ha).
  - destruct (update_keeps_identity tgt' other) as (A & B & _).
    now rewrite A, B.
Qed.

Lemma constructed_provider_raises_only_on_overflow_witness :
  exists self,
    new_map table8 map8 = Return self /\
    fst (update empty_table self) = Return tt /\
    fst (update three_u32 (snd (update empty_table self))) = Return tt /\
    fst (update table_at_the_top self) = Raise OverflowError.
Proof.
  exists (snd (update table8 (fresh StdHashMapSyntheticProvider map8 true))).
  split; [reflexivity|].
  pose proof (constructed_provider_raises_only_on_overflow table8
                StdHashMapSyntheticProvider map8 true _ eq_refl) as H.
  split; [|split].
  - apply (H empty_table); [reflexivity | reflexivity | vm_compute; reflexivity].
  - apply (H three_u32); [reflexivity | reflexivity | vm_compute; reflexivity].
  - apply (H table_at_the_top); [reflexivity | reflexivity | vm_compute; discriminate].
Defined.

(** X3: [update] rebuilds the whole geometry from [valobj]: the instance it
    leaves does not depend on the geometry it found, so running it again
    on its own result changes nothing, and any instance of the same class
    on the same value ends in the same state. *)
Theorem update_rebuilds_the_geometry
    (tgt : SBTarget) (self self' : provider) :
  update tgt self = (Return tt, self') ->
  update tgt self' = (Return tt, self') /\
  (forall other,
     cls other = cls self -> valobj other = valobj self ->
     show_values other = show_values self ->
     update tgt other = (Return tt, self')).
Proof.
  intros H.
  assert (G : forall other,
             cls other = cls self -> valobj other = valobj self ->
             show_values other = show_values self ->
             update tgt other = (Return tt, self')).
  { intros other Hc Hv Hs. unfold update, table in *.
    rewrite Hc, Hv, Hs.
    destruct (template_args _) as [args|]; [|discriminate H].
    destruct (getitem args 0) as [pt|e]; [exact H | discriminate H]. }
  split; [|exact G].
  destruct (update_layout _ _ _ H) as (_ & Hv & Hs & Hc & _).
  now apply G.
Qed.

Lemma update_rebuilds_the_geometry_witness :
  let self := fresh StdHashMapSyntheticProvider map8 true in
  let self' := snd (update table8 self) in
  update table8 self = (Return tt, self') /\
  update table8 self' = (Return tt, self') /\
  update table8 (set_size self' 99) = (Return tt, self').
Proof.
  intros self self'.
  pose proof (update_rebuilds_the_geometry table8 self self' eq_refl) as [I G].
  split; [reflexivity|]. split; [exact I|].
  apply G; reflexivity.
Defined.

Lemma update_data_ptr (tgt : SBTarget) (self self' : provider) :
  update tgt self = (Return tt, self') ->
  data_ptr self' =
  if new_layout self' then Cast (ctrl tgt self) (GetPointerType (pair_type self'))
  else GetChildAtIndex tgt (data_field tgt self) 0.
Proof. intros H. update_returned H. reflexivity. Qed.

Lemma pointer_reading (tgt : SBTarget) (v : SBValue) :
  IsPointerType (GetType v) = true ->
  GetValueAsUnsigned tgt v =
  match value_bytes tgt v (N.to_nat (address_byte_size tgt)) with
  | Some bs => little_endian bs mod 2 ^ 64
  | None => 0
  end.
Proof.
  unfold IsPointerType, GetValueAsUnsigned, GetByteSize.
  destruct (canonical (GetType v)); try discriminate. intros _.
  now rewrite <- Z_N_nat, N2Z.id.
Qed.

Lemma sorted_nth_lt (l : list Z) (i j : nat) :
  StronglySorted Z.lt l -> (i < j < List.length l)%nat ->
  nth i l 0 < nth j l 0.
Proof.
  intros Hs. revert i j. induction Hs as [|a l Hs IH Hall]; intros i j Hij.
  - cbn [List.length] in Hij. lia.
  - destruct j as [|j]; [lia|]. cbn [List.length] in Hij.
    destruct i as [|i]; cbn [nth].
    + rewrite Forall_forall in Hall. apply Hall, nth_In. lia.
    + apply IH. lia.
Qed.

Lemma update_sorted (tgt : SBTarget) (self self' : provider) :
  update tgt self = (Return tt, self') -> StronglySorted Z.lt (valid_indices self').
Proof.
  intros H. rewrite (update_valid_indices_filter _ _ _ H).
  apply filter_sorted, range_sorted.
Qed.

Lemma update_slot_range (tgt : SBTarget) (self self' : provider) (k : nat) :
  update tgt self = (Return tt, self') ->
  (k < List.length (valid_indices self'))%nat ->
  0 <= nth k (valid_indices self') 0 < capacity tgt self.
Proof.
  intros H Hk.
  assert (Hin : In (nth k (valid_indices self') 0) (valid_indices self'))
    by (now apply nth_In).
  set (x := nth k (valid_indices self') 0) in *. clearbody x.
  rewrite (update_valid_indices_filter _ _ _ H) in Hin.
  apply filter_In in Hin. now apply range_In.
Qed.

Lemma update_pair_size_nonneg (tgt : SBTarget) (self self' : provider) :
  update tgt self = (Return tt, self') -> 0 <= pair_type_size self'.
Proof.
  intros H. destruct (update_layout _ _ _ H) as (_ & _ & _ & _ & ->).
  apply GetByteSize_nonneg.
Qed.

(** X4: in the current layout the origin of the element addresses is the
    control pointer itself: when the control pointer has a pointer type
    and the pair type is valid, [data_ptr] reads the same address as
    [ctrl], so the elements are counted down from the first control
    byte. *)
Theorem new_layout_counts_down_from_the_control_bytes
    (tgt : SBTarget) (self self' : provider) :
  update tgt self = (Return tt, self') ->
  new_layout self' = true ->
  TypeIsPointerType (ctrl tgt self) = true ->
  type_IsValid (pair_type self') = true ->
  GetValueAsUnsigned tgt (data_ptr self') = GetValueAsUnsigned tgt (ctrl tgt self) /\
  GetType (data_ptr self') = TPointer (pair_type self').
Proof.
  intros H Hn Hp Ht.
  rewrite (update_data_ptr _ _ _ H), Hn.
  assert (Hg : GetPointerType (pair_type self') = TPointer (pair_type self')).
  { destruct (pair_type self'); [discriminate Ht | reflexivity ..]. }
  rewrite Hg. unfold TypeIsPointerType in Hp.
  rewrite (pointer_reading tgt (ctrl tgt self) Hp).
  destruct (ctrl tgt self) as [|n a ty|n d ty]; [discriminate Hp | |];
    cbn [Cast type_IsValid]; (split; [|reflexivity]);
    rewrite pointer_reading by reflexivity; reflexivity.
Qed.

Lemma new_layout_counts_down_from_the_control_bytes_witness :
  let self := fresh StdHashMapSyntheticProvider map8 true in
  let self' := snd (update table8 self) in
  update table8 self = (Return tt, self') /\
  new_layout self' = true /\
  GetValueAsUnsigned table8 (ctrl table8 self) = 0x2000 /\
  GetValueAsUnsigned table8 (data_ptr self') = GetValueAsUnsigned table8 (ctrl table8 self).
Proof.
  intros self self'.
  split; [reflexivity|]. split; [reflexivity|]. split; [reflexivity|].
  exact (proj1 (new_layout_counts_down_from_the_control_bytes table8 self self'
                  eq_refl eq_refl eq_refl eq_refl)).
Defined.

(** X5: the elements of two logical indices never overlap.  After an
    [update] that returns, for [j < k] inside [valid_indices] the element
    of [k] starts at least one pair size above the element of [j] in the
    older layout, and at least one pair size below it in the current
    one. *)
Theorem elements_do_not_overlap
    (tgt : SBTarget) (self self' : provider) (j k : Z) :
  update tgt self = (Return tt, self') ->
  0 <= j < k -> k < Z.of_nat (List.length (valid_indices self')) ->
  exists aj ak,
    element_address tgt self' j = Return aj /\
    element_address tgt self' k = Return ak /\
    (new_layout self' = false -> aj + pair_type_size self' <= ak) /\
    (new_layout self' = true -> ak + pair_type_size self' <= aj).
Proof.
  intros H Hjk Hk.
  pose proof (update_pair_size_nonneg _ _ _ H) as Hs.
  pose proof (sorted_nth_lt (valid_indices self') (Z.to_nat j) (Z.to_nat k)
                (update_sorted _ _ _ H) ltac:(lia)) as Hlt.
  rewrite (element_address_eq tgt self' j) by lia.
  rewrite (element_address_eq tgt self' k) by lia.
  do 2 eexists. split; [reflexivity|]. split; [reflexivity|].
  split; intros ->; nia.
Qed.

Lemma elements_do_not_overlap_witness :
  let self := fresh StdHashMapSyntheticProvider map8 true in
  let self' := snd (update table8 self) in
  update table8 self = (Return tt, self') /\
  element_address table8 self' 0 = Return (0x2000 - 16) /\
  element_address table8 self' 2 = Return (0x2000 - 7 * 16) /\
  exists aj ak,
    element_address table8 self' 0 = Return aj /\
    element_address table8 self' 2 = Return ak /\
    (new_layout self' = false -> aj + pair_type_size self' <= ak) /\
    (new_layout self' = true -> ak + pair_type_size self' <= aj).
Proof.
  intros self self'.
  split; [reflexivity|]. split; [reflexivity|]. split; [reflexivity|].
  apply (elements_do_not_overlap table8 self self' 0 2 eq_refl).
  - lia.
  - vm_compute. reflexivity.
Defined.

(** X6: no element lies outside the bucket array.  After an [update] that
    returns, every element served lies, whole, in the [capacity] pairs
    above [element_base] in the older layout and in the [capacity] pairs
    below it in the current one. *)
Theorem elements_stay_in_the_bucket_array
    (tgt : SBTarget) (self self' : provider) (k : Z) :
  update tgt self = (Return tt, self') ->
  0 <= k < Z.of_nat (List.length (valid_indices self')) ->
  let base := GetValueAsUnsigned tgt (data_ptr self') in
  let bytes := capacity tgt self * pair_type_size self' in
  exists a,
    element_address tgt self' k = Return a /\
    (new_layout self' = false ->
     base <= a /\ a + pair_type_size self' <= base + bytes) /\
    (new_layout self' = true ->
     base - bytes <= a /\ a + pair_type_size self' <= base).
Proof.
  intros H Hk base bytes.
  pose proof (update_pair_size_nonneg _ _ _ H) as Hs.
  pose proof (update_slot_range tgt self self' (Z.to_nat k) H ltac:(lia)) as Hr.
  rewrite (element_address_eq tgt self' k Hk).
  eexists. split; [reflexivity|].
  unfold bytes, base. split; intros ->; nia.
Qed.

Lemma elements_stay_in_the_bucket_array_witness :
  let self := fresh StdHashMapSyntheticProvider map_old true in
  let self' := snd (update table_ends_old self) in
  update table_ends_old self = (Return tt, self') /\
  capacity table_ends_old self = 8 /\
  exists a,
    element_address table_ends_old self' 1 = Return a /\
    (new_layout self' = false ->
     GetValueAsUnsigned table_ends_old (data_ptr self') <= a /\
     a + pair_type_size self' <=
       GetValueAsUnsigned table_ends_old (data_ptr self')
       + capacity table_ends_old self * pair_type_size self') /\
    (new_layout self' = true ->
     GetValueAsUnsigned table_ends_old (data_ptr self')
       - capacity table_ends_old self * pair_type_size self' <= a /\
     a + pair_type_size self' <= GetValueAsUnsigned table_ends_old (data_ptr self')).
Proof.
  intros self self'.
  split; [reflexivity|]. split; [reflexivity|].
  apply (elements_stay_in_the_bucket_array table_ends_old self self' 1 eq_refl).
  split; [lia | vm_compute; reflexivity].
Defined.

(** X7: which indices below [num_children] reach an element is decided by
    the scan, not by the header: after an [update] that returns, an index
    [k] with [0 <= k < num_children] raises [IndexError] when [k] is not
    below the number of occupied slots; below it the element address is
    computed, and the call returns a child when that address lies in
    [0, 2^64) and raises [OverflowError] when it does not. *)
Theorem in_range_index_served_iff_scanned
    (tgt : SBTarget) (self self' : provider) (k : Z) :
  update tgt self = (Return tt, self') ->
  0 <= k < num_children self' ->
  let found := Z.of_nat (List.length (valid_indices self')) in
  (k < found ->
   exists address,
     element_address tgt self' k = Return address /\
     (0 <= address < 2 ^ 64 ->
      exists v, get_child_at_index tgt self' k = Return v) /\
     (address < 0 \/ 2 ^ 64 <= address ->
      get_child_at_index tgt self' k = Raise OverflowError)) /\
  (found <= k -> get_child_at_index tgt self' k = Raise IndexError) /\
  num_children self' = items tgt self.
Proof.
  intros H Hk found. split; [|split].
  - intros Hf.
    pose proof (element_address_eq tgt self' k) as E.
    specialize (E ltac:(unfold found in Hf; lia)).
    eexists. split; [exact E|].
    destruct (child_creation tgt self' k _ E) as [R O]. split; [|exact O].
    intros Ha. rewrite (R Ha). cbv zeta.
    destruct (show_values self'); eexists; reflexivity.
  - intros Hf. unfold get_child_at_index, element_address.
    rewrite getitem_raises by (right; exact Hf). reflexivity.
  - apply (update_size _ _ _ H).
Qed.

Lemma in_range_index_served_iff_scanned_witness :
  let self := fresh StdHashMapSyntheticProvider map8 true in
  let self' := snd (update table8_five_items self) in
  update table8_five_items self = (Return tt, self') /\
  num_children self' = 5 /\
  Z.of_nat (List.length (valid_indices self')) = 3 /\
  (exists v, get_child_at_index table8_five_items self' 2 = Return v) /\
  get_child_at_index table8_five_items self' 3 = Raise IndexError.
Proof.
  intros self self'.
  split; [reflexivity|]. split; [reflexivity|]. split; [reflexivity|]. split.
  - destruct (in_range_index_served_iff_scanned table8_five_items self self' 2 eq_refl)
      as [S _]; [split; [lia | reflexivity]|].
    destruct (S eq_refl) as (address & E & R & _).
    apply R. vm_compute in E. injection E as <-. lia.
  - apply (in_range_index_served_iff_scanned table8_five_items self self' 3 eq_refl);
      [split; [lia | reflexivity] | vm_compute; discriminate].
Defined.

End HashMapMore.

(** ** Slices and vectors: what the decoders read *)

Section ArrayMore.

Lemma child_of_invalid (tgt : SBTarget) (i : nat) : GetChildAtIndex tgt VInvalid i = VInvalid.
Proof. destruct i; reflexivity. Qed.

Lemma pointee_valid_is_pointer (ty : SBType) :
  type_IsValid (GetPointeeType ty) = true -> ty <> TInvalid.
Proof. intros H ->. discriminate H. Qed.

(** A value asked from an invalid value, or at an invalid type, is the
    invalid value; the address is checked first. *)
Lemma nothing_to_create (base : SBValue) (name : string) (a : Z) (ty : SBType) :
  IsValid base && type_IsValid ty = false ->
  (0 <= a < 2 ^ 64 -> CreateValueFromAddress base name a ty = Return VInvalid) /\
  (a < 0 \/ 2 ^ 64 <= a -> CreateValueFromAddress base name a ty = Raise OverflowError).
Proof.
  intros H. split; intros Ha.
  - now rewrite (CreateValueFromAddress_in_range _ _ _ _ Ha), H.
  - now apply CreateValueFromAddress_overflow.
Qed.

(** An element type that is invalid has size 0, so every index gives the
    start address. *)
Lemma start_address_in_range (tgt : SBTarget) (v : SBValue) (i : Z) :
  0 <= GetValueAsUnsigned tgt v + i * GetByteSize tgt TInvalid < 2 ^ 64.
Proof.
  change (GetByteSize tgt TInvalid) with 0. rewrite Z.mul_0_r, Z.add_0_r.
  apply GetValueAsUnsigned_range.
Qed.

(** X8: the slice decoder takes the element type from the pointee of
    [data_ptr].  For a value whose [data_ptr] member points to a valid
    type, [num_children] is the unsigned reading of [length], and child
    [i], for every integer [i], is made at
    [data_ptr + i * size of the pointee]: it is the value named ["[i]"] of
    the pointee type there when that address lies in [0, 2^64), and the
    call raises [OverflowError] when it does not. *)
Theorem slice_children_have_the_pointee_type
    (tgt : SBTarget) (v : SBValue) (i : Z) :
  let data := GetChildMemberWithName tgt v "data_ptr" in
  let pointee := GetPointeeType (GetType data) in
  let address := GetValueAsUnsigned tgt data + i * GetByteSize tgt pointee in
  type_IsValid pointee = true ->
  let p := StdSlice.init tgt v in
  StdSlice.num_children p = GetValueAsUnsigned tgt (GetChildMemberWithName tgt v "length") /\
  (0 <= address < 2 ^ 64 ->
   StdSlice.get_child_at_index tgt p i = Return (value_at (bracketed i) address pointee)) /\
  (address < 0 \/ 2 ^ 64 <= address ->
   StdSlice.get_child_at_index tgt p i = Raise OverflowError) /\
  StdSlice.update tgt p = p.
Proof.
  intros data pointee address Hp p.
  assert (Hd : IsValid data = true).
  { destruct data; [discriminate Hp | reflexivity ..]. }
  split; [reflexivity|].
  rewrite slice_child.
  cbn [p StdSlice.init StdSlice.update StdSlice.data_ptr StdSlice.element_type
       StdSlice.element_type_size StdSlice.valobj].
  fold data. fold pointee. fold address.
  split; [|split; [|reflexivity]]; intros Ha.
  - exact (proj1 (created_child _ _ _ _ Hd Hp Ha)).
  - now apply CreateValueFromAddress_overflow.
Qed.

Lemma slice_children_have_the_pointee_type_witness :
  type_IsValid (GetPointeeType (GetType (GetChildMemberWithName three_u32 slice3 "data_ptr")))
  = true /\
  StdSlice.num_children (StdSlice.init three_u32 slice3) = 3 /\
  StdSlice.get_child_at_index three_u32 (StdSlice.init three_u32 slice3) 2
  = Return (VAtAddress "[2]" (0x1000 + 2 * 4) u32) /\
  StdSlice.get_child_at_index three_u32 (StdSlice.init three_u32 slice3) (-1025)
  = Raise OverflowError.
Proof.
  split; [reflexivity|].
  pose proof (slice_children_have_the_pointee_type three_u32 slice3 2 eq_refl)
    as (N & C & _).
  pose proof (slice_children_have_the_pointee_type three_u32 slice3 (-1025) eq_refl)
    as (_ & _ & O & _).
  split; [exact N|]. split.
  - apply C. vm_compute. split; [discriminate | reflexivity].
  - apply O. left. reflexivity.
Defined.

(** X9: a slice value that lacks a member degrades without an exception:
    without [length], [num_children] is 0; without [data_ptr], or with a
    [data_ptr] that is no pointer, every child is the invalid value. *)
Theorem slice_without_members_degrades (tgt : SBTarget) (v : SBValue) :
  (IsValid (GetChildMemberWithName tgt v "length") = false ->
   StdSlice.num_children (StdSlice.init tgt v) = 0) /\
  (IsValid (GetChildMemberWithName tgt v "data_ptr") = false ->
   forall i, StdSlice.get_child_at_index tgt (StdSlice.init tgt v) i = Return VInvalid) /\
  (TypeIsPointerType (GetChildMemberWithName tgt v "data_ptr") = false ->
   forall i, StdSlice.get_child_at_index tgt (StdSlice.init tgt v) i = Return VInvalid).
Proof.
  split; [|split].
  - intros H. apply HashMapMore.invalid_value in H.
    cbn [StdSlice.num_children StdSlice.init StdSlice.update StdSlice.length StdSlice.valobj].
    now rewrite H.
  - intros H i. apply HashMapMore.invalid_value in H. rewrite slice_child.
    cbn [StdSlice.init StdSlice.update StdSlice.data_ptr StdSlice.element_type
         StdSlice.element_type_size StdSlice.valobj].
    rewrite H. apply nothing_to_create; [reflexivity|].
    apply (start_address_in_range tgt VInvalid i).
  - intros H i. rewrite slice_child.
    cbn [StdSlice.init StdSlice.update StdSlice.data_ptr StdSlice.element_type
         StdSlice.element_type_size StdSlice.valobj].
    assert (E : GetPointeeType (GetType (GetChildMemberWithName tgt v "data_ptr")) = TInvalid).
    { unfold TypeIsPointerType, IsPointerType in H. unfold GetPointeeType.
      destruct (canonical (GetType (GetChildMemberWithName tgt v "data_ptr")));
        try discriminate H; reflexivity. }
    rewrite E. apply nothing_to_create; [apply andb_false_r|].
    apply start_address_in_range.
Qed.

Lemma slice_without_members_degrades_witness :
  IsValid (GetChildMemberWithName table8 map8 "length") = false /\
  StdSlice.num_children (StdSlice.init table8 map8) = 0 /\
  StdSlice.get_child_at_index table8 (StdSlice.init table8 map8) 0 = Return VInvalid.
Proof.
  pose proof (slice_without_members_degrades table8 map8) as (L & D & _).
  split; [reflexivity|]. split.
  - exact (L eq_refl).
  - exact (D eq_refl 0).
Defined.

(** X10: the vector decoder takes the element type from the first
    template argument of the vector's type, not from the stored pointer.
    When the unwrapped pointer is a valid value and the argument a valid
    type, [num_children] is the unsigned reading of [len] and child [i],
    for every integer [i], is made at [pointer + i * size of the
    argument], whatever the pointer points to: it is the value named
    ["[i]"] of the argument type there when that address lies in
    [0, 2^64), and the call raises [OverflowError] when it does not. *)
Theorem vec_children_have_the_template_argument_type
    (tgt : SBTarget) (v : SBValue) (i : Z) :
  let ptr :=
    GetChildMemberWithName tgt
      (GetChildMemberWithName tgt (GetChildMemberWithName tgt v "buf") "inner") "ptr" in
  let raw := StdVec.unwrap_unique_or_non_null tgt ptr in
  let argument := GetTemplateArgumentType (GetType v) 0 in
  let address := GetValueAsUnsigned tgt raw + i * GetByteSize tgt argument in
  IsValid raw = true ->
  type_IsValid argument = true ->
  let p := StdVec.init tgt v in
  StdVec.num_children p = GetValueAsUnsigned tgt (GetChildMemberWithName tgt v "len") /\
  (0 <= address < 2 ^ 64 ->
   StdVec.get_child_at_index tgt p i = Return (value_at (bracketed i) address argument)) /\
  (address < 0 \/ 2 ^ 64 <= address ->
   StdVec.get_child_at_index tgt p i = Raise OverflowError) /\
  StdVec.update tgt p = p.
Proof.
  intros ptr raw argument address Hr Ha p.
  split; [reflexivity|].
  rewrite vec_child.
  cbn [p StdVec.init StdVec.update StdVec.data_ptr StdVec.element_type
       StdVec.element_type_size StdVec.valobj].
  fold ptr. fold raw. fold argument. fold address.
  split; [|split; [|reflexivity]]; intros Hin.
  - exact (proj1 (created_child _ _ _ _ Hr Ha Hin)).
  - now apply CreateValueFromAddress_overflow.
Qed.

Lemma vec_children_have_the_template_argument_type_witness :
  let v := VAtAddress "v" 0x800 (Vec (Unique (NonNull u8)) u32) in
  IsValid (StdVec.unwrap_unique_or_non_null three_u32
             (GetChildMemberWithName three_u32
                (GetChildMemberWithName three_u32
                   (GetChildMemberWithName three_u32 v "buf") "inner") "ptr")) = true /\
  type_IsValid (GetTemplateArgumentType (GetType v) 0) = true /\
  GetPointeeType (GetType (StdVec.data_ptr (StdVec.init three_u32 v))) = u8 /\
  StdVec.num_children (StdVec.init three_u32 v) = 3 /\
  StdVec.get_child_at_index three_u32 (StdVec.init three_u32 v) 2
  = Return (VAtAddress "[2]" (0x1000 + 2 * 4) u32) /\
  StdVec.get_child_at_index three_u32 (StdVec.init three_u32 v) (-1025)
  = Raise OverflowError.
Proof.
  intros v. split; [reflexivity|]. split; [reflexivity|]. split; [reflexivity|].
  pose proof (vec_children_have_the_template_argument_type three_u32 v 2 eq_refl eq_refl)
    as (N & C & _).
  pose proof (vec_children_have_the_template_argument_type three_u32 v (-1025)
                eq_refl eq_refl) as (_ & _ & O & _).
  split; [exact N|]. split.
  - apply C. vm_compute. split; [discriminate | reflexivity].
  - apply O. left. reflexivity.
Defined.

Lemma unwrap_of_invalid (tgt : SBTarget) :
  StdVec.unwrap_unique_or_non_null tgt VInvalid = VInvalid.
Proof. reflexivity. Qed.

(** X11: a vector value that lacks a member yields no element.  Without
    [len], [num_children] is 0.  Without [buf] the data pointer is
    invalid and reads 0, so child [i] is asked at
    [i * size of the first template argument]: it is the invalid value
    when that number lies in [0, 2^64), and the call raises
    [OverflowError] when it does not (a negative index with an argument
    of positive size).  When the type has no template argument the
    element size is 0 and every child is the invalid value. *)
Theorem vec_without_members_degrades (tgt : SBTarget) (v : SBValue) :
  (IsValid (GetChildMemberWithName tgt v "len") = false ->
   StdVec.num_children (StdVec.init tgt v) = 0) /\
  (IsValid (GetChildMemberWithName tgt v "buf") = false ->
   forall i,
     let address := i * GetByteSize tgt (GetTemplateArgumentType (GetType v) 0) in
     (0 <= address < 2 ^ 64 ->
      StdVec.get_child_at_index tgt (StdVec.init tgt v) i = Return VInvalid) /\
     (address < 0 \/ 2 ^ 64 <= address ->
      StdVec.get_child_at_index tgt (StdVec.init tgt v) i = Raise OverflowError)) /\
  (template_args (GetType v) = None ->
   forall i, StdVec.get_child_at_index tgt (StdVec.init tgt v) i = Return VInvalid).
Proof.
  split; [|split].
  - intros H. apply HashMapMore.invalid_value in H.
    cbn [StdVec.num_children StdVec.init StdVec.update StdVec.length StdVec.valobj].
    now rewrite H.
  - intros H i address. apply HashMapMore.invalid_value in H. rewrite vec_child.
    cbn [StdVec.init StdVec.update StdVec.data_ptr StdVec.element_type
         StdVec.element_type_size StdVec.valobj].
    rewrite H.
    change (GetValueAsUnsigned tgt _) with 0. rewrite Z.add_0_l. fold address.
    apply nothing_to_create. reflexivity.
  - intros H i. rewrite vec_child.
    cbn [StdVec.init StdVec.update StdVec.data_ptr StdVec.element_type
         StdVec.element_type_size StdVec.valobj].
    assert (E : GetTemplateArgumentType (GetType v) 0 = TInvalid).
    { unfold template_args in H. unfold GetTemplateArgumentType.
      destruct (template_arguments (GetType v)); [reflexivity | discriminate H]. }
    rewrite E. apply nothing_to_create; [apply andb_false_r|].
    apply start_address_in_range.
Qed.

Lemma vec_without_members_degrades_witness :
  let v := VAtAddress "v" 0x800 (RawVecInner (Unique (NonNull u8))) in
  IsValid (GetChildMemberWithName three_u32 v "len") = false /\
  IsValid (GetChildMemberWithName three_u32 v "buf") = false /\
  template_args (GetType v) = None /\
  StdVec.num_children (StdVec.init three_u32 v) = 0 /\
  StdVec.get_child_at_index three_u32 (StdVec.init three_u32 v) 0 = Return VInvalid.
Proof.
  intros v.
  pose proof (vec_without_members_degrades three_u32 v) as (L & B & _).
  split; [reflexivity|]. split; [reflexivity|]. split; [reflexivity|]. split.
  - exact (L eq_refl).
  - apply (B eq_refl 0). vm_compute. split; [discriminate | reflexivity].
Defined.

End ArrayMore.

(** ** Child names: every outcome of [get_child_index] *)

Section NameMore.

Lemma decimal_value_nonneg (s : string) (acc : Z) :
  string_forallb is_decimal_char s = true -> 0 <= acc -> 0 <= decimal_value s acc.
Proof.
  revert acc. induction s as [|a r IH]; intros acc; cbn [string_forallb decimal_value].
  - intros _ H. exact H.
  - intros H Hacc. apply andb_true_iff in H. destruct H as [Ha Hr].
    apply IH; [exact Hr|].
    unfold is_decimal_char in Ha. apply andb_true_iff in Ha. destruct Ha as [Hl _].
    apply N.leb_le in Hl. lia.
Qed.

(** The digits of [isdigit] that are no decimal digits are the three
    superscripts. *)
Lemma superscript_digits (a : ascii) :
  is_digit_char a = true /\ is_decimal_char a = false <->
  N_of_ascii a = 178%N \/ N_of_ascii a = 179%N \/ N_of_ascii a = 185%N.
Proof.
  destruct a as [[] [] [] [] [] [] [] []]; vm_compute; split;
    try (intros [H1 H2]; discriminate);
    try (intros [H|[H|H]]; discriminate H);
    try (intros _; split; reflexivity);
    intros _; auto.
Qed.

(** X12: an index that [get_child_index] returns is -1 or non-negative.
    A non-negative one is the decimal value of what is left of the name
    once its leading ['['] and trailing [']'] are stripped, and the
    canonical name ["[n]"] resolves to the same index. *)
Theorem returned_index_is_canonical (name : string) (n : Z) :
  StdHashMap.get_child_index name = Return n ->
  n = -1 \/
  (0 <= n /\
   n = decimal_value (rstrip "]" (lstrip "[" name)) 0 /\
   StdHashMap.get_child_index (bracketed n) = Return n /\
   StdSlice.get_child_index name = Return n /\
   StdVec.get_child_index name = Return n).
Proof.
  unfold StdHashMap.get_child_index at 1. cbv zeta.
  destruct (isdigit (rstrip "]" (lstrip "[" name))) eqn:D.
  - unfold int_of_digits.
    destruct (string_forallb is_decimal_char (rstrip "]" (lstrip "[" name))) eqn:F;
      [|discriminate].
    intros [= <-]. right.
    pose proof (decimal_value_nonneg _ 0 F ltac:(lia)) as Hn.
    split; [exact Hn|]. split; [reflexivity|]. split.
    + destruct (str_nonnegative _ Hn) as (Hne & Hd & Hv).
      rewrite <- Hv at 2.
      apply (get_child_index_decimal 1 1 _ Hne Hd).
    + assert (E : StdHashMap.get_child_index name
                  = Return (decimal_value (rstrip "]" (lstrip "[" name)) 0)).
      { unfold StdHashMap.get_child_index, int_of_digits. cbv zeta. now rewrite D, F. }
      split; exact E.
  - intros [= <-]. now left.
Qed.

Lemma returned_index_is_canonical_witness :
  StdHashMap.get_child_index "[[007]" = Return 7 /\
  StdHashMap.get_child_index (bracketed 7) = Return 7 /\
  bracketed 7 = "[7]".
Proof.
  split; [reflexivity|].
  destruct (returned_index_is_canonical "[[007]" 7 eq_refl) as [H|(_ & _ & H & _)].
  - discriminate H.
  - split; [exact H | reflexivity].
Defined.

End NameMore.

(** ** Type matchers *)

Section MatcherFacts.
Import Matchers.

Lemma prefix_split (p s : string) :
  String.prefix p s = true -> exists r, s = p ++ r.
Proof.
  revert s. induction p as [|a p IH]; intros s.
  - intros _. now exists s.
  - destruct s as [|b s]; cbn [String.prefix]; [intros H; discriminate H|].
    destruct (ascii_dec a b) as [->|_]; [|intros H; discriminate H].
    intros H. destruct (IH _ H) as [r ->]. now exists r.
Qed.

Lemma prefix_of_append (p r : string) : String.prefix p (p ++ r) = true.
Proof.
  induction p as [|a p IH]; cbn [append].
  - destruct r; reflexivity.
  - cbn [String.prefix]. destruct (ascii_dec a a) as [_|N]; [exact IH | congruence].
Qed.

(** X14: the three matchers accept exactly the names that start with
    their prefix, and no name is accepted by two of them: a value gets at
    most one of the three providers. *)
Theorem matchers_are_exclusive (type_name : string) :
  (is_std_vec type_name = true <->
   exists rest, type_name = "alloc::vec::Vec<" ++ rest) /\
  (is_std_hashmap type_name = true <->
   exists rest, type_name = "std::collections::hash::map::HashMap<" ++ rest) /\
  (is_std_hashset type_name = true <->
   exists rest, type_name = "std::collections::hash::set::HashSet<" ++ rest) /\
  (is_std_vec type_name && is_std_hashmap type_name = false) /\
  (is_std_vec type_name && is_std_hashset type_name = false) /\
  (is_std_hashmap type_name && is_std_hashset type_name = false).
Proof.
  assert (P : forall p, String.prefix p type_name = true <->
                        exists rest, type_name = p ++ rest).
  { intros p. split; [apply prefix_split|]. intros [r ->]. apply prefix_of_append. }
  unfold is_std_vec, is_std_hashmap, is_std_hashset, startswith. cbv zeta.
  split; [apply P|]. split; [apply P|]. split; [apply P|].
  repeat split; apply andb_false_iff;
    match goal with
    | |- String.prefix ?p _ = false \/ String.prefix ?q _ = false =>
        destruct (String.prefix p type_name) eqn:E1; [right | now left];
        destruct (String.prefix q type_name) eqn:E2; [exfalso | reflexivity];
        apply prefix_split in E1; apply prefix_split in E2;
        destruct E1 as [r1 ->]; destruct E2 as [r2 E2];
        cbn [append] in E2; congruence
    end.
Qed.

Lemma matchers_are_exclusive_witness :
  is_std_hashset "std::collections::hash::set::HashSet<u64, std::hash::random::RandomState>"
  = true /\
  is_std_hashmap "std::collections::hash::set::HashSet<u64, std::hash::random::RandomState>"
  = false /\
  is_std_vec "std::collections::hash::set::HashSet<u64, std::hash::random::RandomState>"
  = false.
Proof.
  pose proof (matchers_are_exclusive
                "std::collections::hash::set::HashSet<u64, std::hash::random::RandomState>")
    as (_ & _ & S & _ & VS & MS).
  assert (H : is_std_hashset
                "std::collections::hash::set::HashSet<u64, std::hash::random::RandomState>"
              = true).
  { apply S. now exists "u64, std::hash::random::RandomState>". }
  rewrite H, andb_true_r in VS, MS. repeat split; assumption.
Defined.

End MatcherFacts.

(** ** Regular expressions: greedy runs *)

Section RegexFacts.
Import Re.

Lemma append_nil_r (s : string) : s ++ "" = s.
Proof. induction s as [|a s IH]; cbn [append]; [reflexivity | now rewrite IH]. Qed.

Lemma append_assoc (a b c : string) : (a ++ b) ++ c = a ++ (b ++ c).
Proof. induction a as [|x a IH]; cbn [append]; [reflexivity | now rewrite IH]. Qed.

Lemma forallb_append (p : ascii -> bool) (a b : string) :
  string_forallb p (a ++ b) = string_forallb p a && string_forallb p b.
Proof.
  induction a as [|x a IH]; cbn [append string_forallb]; [reflexivity|].
  now rewrite IH, andb_assoc.
Qed.

Lemma consume_all_empty (opens : list string) : consume_all "" opens = opens.
Proof.
  unfold consume_all. induction opens as [|g l IH]; cbn [map]; [reflexivity|].
  now rewrite append_nil_r, IH.
Qed.

Lemma consume_all_consume (a : ascii) (pre : string) (opens : list string) :
  consume_all pre (consume a opens) = consume_all (String a pre) opens.
Proof.
  unfold consume_all, consume. rewrite map_map. apply map_ext.
  intros g. now rewrite append_assoc.
Qed.

(** A greedy run fails when the continuation fails after every run. *)
Lemma greedy_fail (cs : charset) (k : string -> list string -> option (list string))
    (s : string) (opens : list string) :
  (forall pre s', s = pre ++ s' -> string_forallb (accepts cs) pre = true ->
                  k s' (consume_all pre opens) = None) ->
  greedy cs k s opens = None.
Proof.
  revert opens. induction s as [|a r IH]; intros opens H; cbn [greedy].
  - rewrite <- (consume_all_empty opens). now apply (H "" "").
  - assert (K : k (String a r) opens = None).
    { rewrite <- (consume_all_empty opens). now apply (H "" (String a r)). }
    destruct (accepts cs a) eqn:A; [|exact K].
    rewrite IH; [exact K|].
    intros pre s' -> Hp. rewrite consume_all_consume.
    apply (H (String a pre) s'); [reflexivity|].
    cbn [string_forallb]. now rewrite A, Hp.
Qed.

(** A greedy run that succeeds has split the string into a run and a rest
    on which the continuation succeeded. *)
Lemma greedy_inv (cs : charset) (k : string -> list string -> option (list string))
    (s : string) (opens m : list string) :
  greedy cs k s opens = Some m ->
  exists pre s', s = pre ++ s' /\ string_forallb (accepts cs) pre = true /\
                 k s' (consume_all pre opens) = Some m.
Proof.
  revert opens. induction s as [|a r IH]; intros opens; cbn [greedy].
  - intros H. exists "", "". now rewrite consume_all_empty.
  - assert (K : k (String a r) opens = Some m ->
                exists pre s', String a r = pre ++ s' /\
                               string_forallb (accepts cs) pre = true /\
                               k s' (consume_all pre opens) = Some m).
    { intros H. exists "", (String a r). now rewrite consume_all_empty. }
    destruct (accepts cs a) eqn:A; [|exact K].
    destruct (greedy cs k r (consume a opens)) as [m'|] eqn:G; [|exact K].
    intros [= ->]. destruct (IH _ G) as (pre & s' & -> & Hp & Hk).
    exists (String a pre), s'. rewrite consume_all_consume in Hk.
    cbn [string_forallb append]. now rewrite A, Hp.
Qed.

(** The longest run wins: when the run [pre] cannot be extended and the
    continuation fails after each shorter run, the outcome is the
    continuation's after [pre]. *)
Lemma greedy_maximal (cs : charset) (k : string -> list string -> option (list string))
    (pre s' : string) (opens : list string) :
  string_forallb (accepts cs) pre = true ->
  match s' with String a _ => accepts cs a = false | EmptyString => True end ->
  (forall u a v, pre = u ++ String a v ->
                 k (String a v ++ s') (consume_all u opens) = None) ->
  greedy cs k (pre ++ s') opens = k s' (consume_all pre opens).
Proof.
  revert opens. induction pre as [|a pre IH]; intros opens Hp Hs Hk.
  - rewrite consume_all_empty. cbn [append].
    destruct s' as [|b r]; cbn [greedy]; [reflexivity | now rewrite Hs].
  - cbn [string_forallb] in Hp. apply andb_true_iff in Hp. destruct Hp as [A Hp].
    cbn [append greedy]. rewrite A, IH; [| exact Hp | exact Hs |].
    + rewrite consume_all_consume.
      destruct (k s' (consume_all (String a pre) opens)); [reflexivity|].
      rewrite <- (consume_all_empty opens). apply (Hk "" a pre). reflexivity.
    + intros u b v ->. rewrite consume_all_consume.
      apply (Hk (String a u) b v). reflexivity.
Qed.

(** A greedy run before a continuation that succeeds after the longest run
    gives that outcome, whatever shorter runs would give. *)
Lemma greedy_longest (cs : charset) (k : string -> list string -> option (list string))
    (pre s' : string) (opens m : list string) :
  string_forallb (accepts cs) pre = true ->
  match s' with String a _ => accepts cs a = false | EmptyString => True end ->
  k s' (consume_all pre opens) = Some m ->
  greedy cs k (pre ++ s') opens = Some m.
Proof.
  revert opens. induction pre as [|a pre IH]; intros opens Hp Hs Hk.
  - rewrite consume_all_empty in Hk. cbn [append].
    destruct s' as [|b r]; cbn [greedy]; [exact Hk | now rewrite Hs].
  - cbn [string_forallb] in Hp. apply andb_true_iff in Hp. destruct Hp as [A Hp].
    cbn [append greedy]. rewrite A, (IH (consume a opens) Hp Hs); [reflexivity|].
    now rewrite consume_all_consume.
Qed.

Lemma greedy_total (cs : charset) (m : list string) (s : string) (opens : list string) :
  greedy cs (fun _ _ => Some m) s opens = Some m.
Proof.
  revert opens. induction s as [|a r IH]; intros opens; cbn [greedy]; [reflexivity|].
  destruct (accepts cs a); [now rewrite IH | reflexivity].
Qed.

End RegexFacts.

Section RegexMore.
Import Re.

(** The last run wins when the continuation fails after every longer
    one. *)
Lemma greedy_last (cs : charset) (k : string -> list string -> option (list string))
    (pre s' : string) (opens m : list string) :
  string_forallb (accepts cs) pre = true ->
  k s' (consume_all pre opens) = Some m ->
  (forall u w, u <> "" -> s' = u ++ w -> string_forallb (accepts cs) u = true ->
               k w (consume_all (pre ++ u) opens) = None) ->
  greedy cs k (pre ++ s') opens = Some m.
Proof.
  revert opens. induction pre as [|a pre IH]; intros opens Hp Hk Hl.
  - rewrite consume_all_empty in Hk. cbn [append] in *.
    destruct s' as [|b r]; cbn [greedy]; [exact Hk|].
    destruct (accepts cs b) eqn:B; [|exact Hk].
    rewrite greedy_fail; [exact Hk|].
    intros pre2 s2 -> H2. rewrite consume_all_consume.
    apply (Hl (String b pre2) s2); [discriminate | reflexivity |].
    cbn [string_forallb]. now rewrite B, H2.
  - cbn [string_forallb] in Hp. apply andb_true_iff in Hp. destruct Hp as [A Hp].
    cbn [append greedy]. rewrite A, (IH (consume a opens) Hp); [reflexivity | |].
    + now rewrite consume_all_consume.
    + intros u w Hu -> Hf. rewrite consume_all_consume.
      now apply (Hl u w).
Qed.

Lemma lacks_accepts (c : ascii) (s : string) :
  lacks c s = string_forallb (accepts (Not c)) s.
Proof. reflexivity. Qed.

Lemma lacks_append (c : ascii) (a b : string) :
  lacks c (a ++ b) = lacks c a && lacks c b.
Proof. apply forallb_append. Qed.

End RegexMore.

(** ** [lldb/collections.py] *)

Module CollectionsFacts.
Import Re Collections.

Example trim_namespace_examples :
  map trim_namespace ["alloc::vec::Vec"; "i32"; "a::b:c"; "a:::b"; "a::"; ""]
  = ["Vec"; "i32"; "b"; "b"; ""; ""].
Proof. reflexivity. Qed.

Example summarize_vec :
  summarize_one_arg_len "alloc::vec::Vec<i32, alloc::alloc::Global>" 3
  = Summary "Vec<i32> size=3".
Proof. reflexivity. Qed.

Example summarize_hashmap :
  summarize_two_arg_len
    "std::collections::hash::map::HashMap<u64, alloc::string::String, std::hash::random::RandomState>"
    2
  = Summary "HashMap<u64, String> size=2".
Proof. reflexivity. Qed.

(** What follows the two colons: the group takes the longest run without a
    colon, and the pattern ends there. *)
Lemma namespace_group (s : string) (m : list string) :
  run [Open; Chars (Not ":") Star; Close] s [] [] = Some m ->
  exists g, m = [g] /\ lacks ":" g = true.
Proof.
  cbn [run]. intros H. apply greedy_inv in H.
  destruct H as (pre & s' & _ & Hp & Hk).
  cbn [consume_all map run append] in Hk. injection Hk as <-.
  exists pre. split; [reflexivity | exact Hp].
Qed.

Lemma namespace_group_all (base : string) :
  lacks ":" base = true ->
  run [Open; Chars (Not ":") Star; Close] base [] [] = Some [base].
Proof.
  intros H. cbn [run].
  rewrite <- (append_nil_r base) at 1.
  apply greedy_longest; [exact H | exact I | reflexivity].
Qed.

(** The continuation of [.*] in the namespace pattern succeeds only on a
    string that starts with two colons. *)
Lemma namespace_rest_inv (s : string) (m : list string) :
  run [Chars (Lit ":") One; Chars (Lit ":") One; Open; Chars (Not ":") Star; Close]
      s [] [] = Some m ->
  exists r, s = "::" ++ r /\
            run [Open; Chars (Not ":") Star; Close] r [] [] = Some m.
Proof.
  destruct s as [|a [|b r]]; cbn [run accepts consume map].
  - discriminate.
  - destruct (Ascii.eqb a ":"); discriminate.
  - destruct (Ascii.eqb_spec a ":") as [->|_]; [|discriminate].
    destruct (Ascii.eqb_spec b ":") as [->|_]; [|discriminate].
    intros H. exists r. split; [reflexivity | exact H].
Qed.

Lemma re_match_namespace_inv (name : string) (m : list string) :
  re_match namespace_pattern name = Some m ->
  exists pre r g, name = pre ++ "::" ++ r /\ m = [g] /\ lacks ":" g = true.
Proof.
  unfold re_match, namespace_pattern. cbn [run]. intros H.
  apply greedy_inv in H. destruct H as (pre & s' & -> & _ & Hk).
  cbn [consume_all map] in Hk. apply namespace_rest_inv in Hk.
  destruct Hk as (r & -> & Hg). apply namespace_group in Hg.
  destruct Hg as (g & -> & Hl). now exists pre, r, g.
Qed.

Lemma re_match_namespace_none (name : string) :
  (forall pre rest, name <> pre ++ "::" ++ rest) ->
  re_match namespace_pattern name = None.
Proof.
  intros H. destruct (re_match namespace_pattern name) as [m|] eqn:E; [|reflexivity].
  apply re_match_namespace_inv in E. destruct E as (pre & r & g & E & _).
  now apply H in E.
Qed.

Lemma lacks_no_double_colon (s pre rest : string) :
  lacks ":" s = true -> s <> pre ++ "::" ++ rest.
Proof.
  intros H ->. rewrite lacks_append in H. apply andb_true_iff in H.
  destruct H as [_ H]. discriminate H.
Qed.

Lemma re_match_namespace (ns base : string) :
  lacks "010" ns = true -> lacks ":" base = true ->
  re_match namespace_pattern (ns ++ "::" ++ base) = Some [base].
Proof.
  intros Hn Hb. unfold re_match, namespace_pattern. cbn [run].
  apply greedy_last; [exact Hn | |].
  - cbn [consume_all map append run accepts consume].
    rewrite Ascii.eqb_refl. apply (namespace_group_all base Hb).
  - intros u w Hu E _. cbn [consume_all map].
    match goal with |- ?r = None => destruct r as [m|] eqn:R; [|reflexivity] end.
    exfalso. apply namespace_rest_inv in R. destruct R as (r & -> & _).
    destruct u as [|x [|y u]]; [congruence | |]; cbn [append] in E.
    + injection E as _ E. rewrite E in Hb. discriminate Hb.
    + injection E as _ _ E. now apply (lacks_no_double_colon base u r Hb).
Qed.

(** X15: [trim_namespace] keeps the last path segment of a qualified name:
    when the name is a one-line path, two colons and a segment without a
    colon, the result is that segment. *)
Theorem trim_namespace_keeps_the_last_segment (ns base : string) :
  lacks "010" ns = true -> lacks ":" base = true ->
  trim_namespace (ns ++ "::" ++ base) = base.
Proof.
  intros Hn Hb. unfold trim_namespace.
  now rewrite (re_match_namespace ns base Hn Hb).
Qed.

Lemma trim_namespace_keeps_the_last_segment_witness :
  lacks "010" "alloc::vec" = true /\ lacks ":" "Vec" = true /\
  trim_namespace "alloc::vec::Vec" = "Vec".
Proof.
  split; [reflexivity|]. split; [reflexivity|].
  exact (trim_namespace_keeps_the_last_segment "alloc::vec" "Vec" eq_refl eq_refl).
Defined.

(** X16: [trim_namespace] returns a name without two adjacent colons
    unchanged; whenever it changes a name the result holds no colon; and
    applying it twice is the same as applying it once. *)
Theorem trim_namespace_is_idempotent (name : string) :
  trim_namespace (trim_namespace name) = trim_namespace name /\
  (trim_namespace name = name \/ lacks ":" (trim_namespace name) = true) /\
  ((forall pre rest, name <> pre ++ "::" ++ rest) -> trim_namespace name = name).
Proof.
  assert (F : forall s, lacks ":" s = true -> trim_namespace s = s).
  { intros s Hs. unfold trim_namespace. rewrite re_match_namespace_none; [reflexivity|].
    intros pre rest. now apply lacks_no_double_colon. }
  split; [|split].
  - assert (T : trim_namespace name =
                match re_match namespace_pattern name with
                | Some m => group m 1
                | None => name
                end) by reflexivity.
    destruct (re_match namespace_pattern name) as [m|] eqn:E; rewrite T.
    + apply re_match_namespace_inv in E. destruct E as (pre & r & g & _ & -> & Hg).
      cbn [group nth Nat.sub]. now apply F.
    + unfold trim_namespace. now rewrite E.
  - unfold trim_namespace.
    destruct (re_match namespace_pattern name) as [m|] eqn:E; [|now left].
    apply re_match_namespace_inv in E. destruct E as (pre & r & g & _ & -> & Hg).
    right. exact Hg.
  - intros H. unfold trim_namespace. now rewrite re_match_namespace_none.
Qed.

Lemma trim_namespace_is_idempotent_witness :
  (forall pre rest, "i32" <> pre ++ "::" ++ rest) /\ trim_namespace "i32" = "i32".
Proof.
  assert (H : forall pre rest, "i32" <> pre ++ "::" ++ rest).
  { intros pre rest. apply lacks_no_double_colon. reflexivity. }
  split; [exact H|].
  exact (proj2 (proj2 (trim_namespace_is_idempotent "i32")) H).
Defined.

(** A group of [[^c]*] that is open, closed before the character [c]. *)
Lemma group_then_lit (c : ascii) (p : list token) (o g rest : string)
    (closed : list string) :
  lacks c g = true ->
  run (Chars (Not c) Star :: Close :: Chars (Lit c) One :: p)
      (g ++ String c rest) [o] closed
  = run p rest [] (closed ++ [o ++ g]).
Proof.
  intros Hg. cbn [run].
  rewrite greedy_maximal; [ | exact Hg | | ].
  - cbn [consume_all map run accepts consume]. now rewrite Ascii.eqb_refl.
  - cbn [accepts]. now rewrite Ascii.eqb_refl.
  - intros u a v ->. cbn [consume_all map append run accepts].
    unfold lacks in Hg. rewrite forallb_append in Hg.
    apply andb_true_iff in Hg. destruct Hg as [_ Hg].
    cbn [string_forallb] in Hg. apply andb_true_iff in Hg. destruct Hg as [Ha _].
    apply negb_true_iff in Ha. now rewrite Ha.
Qed.

Lemma group_then_lit_inv (c : ascii) (p : list token) (o s : string)
    (closed m : list string) :
  run (Chars (Not c) Star :: Close :: Chars (Lit c) One :: p) s [o] closed = Some m ->
  exists g rest, s = g ++ String c rest /\ lacks c g = true /\
                 run p rest [] (closed ++ [o ++ g]) = Some m.
Proof.
  cbn [run]. intros H. apply greedy_inv in H.
  destruct H as (g & s' & -> & Hg & Hk).
  cbn [consume_all map run] in Hk.
  destruct s' as [|a rest]; [discriminate Hk|].
  cbn [accepts] in Hk. destruct (Ascii.eqb_spec a c) as [->|_]; [|discriminate Hk].
  exists g, rest. repeat split; assumption.
Qed.

Lemma dot_star_end (s : string) (closed : list string) :
  run [Chars Dot Star] s [] closed = Some closed.
Proof. cbn [run]. apply greedy_total. Qed.

Lemma run_open (p : list token) (s : string) (opens closed : list string) :
  run (Open :: p) s opens closed = run p s ("" :: opens) closed.
Proof. reflexivity. Qed.

Lemma run_plus (cs : charset) (p : list token) (a : ascii) (r : string)
    (opens closed : list string) :
  run (Chars cs Plus :: p) (String a r) opens closed =
  if accepts cs a then run (Chars cs Star :: p) r (consume a opens) closed else None.
Proof. reflexivity. Qed.

Lemma re_match_one_arg (g1 g2 rest : string) :
  g1 <> "" -> lacks "<" g1 = true -> lacks "," g2 = true ->
  re_match one_arg_pattern (g1 ++ "<" ++ g2 ++ "," ++ rest) = Some [g1; g2].
Proof.
  intros Hne H1 H2. destruct g1 as [|a g1]; [congruence|].
  cbn [lacks string_forallb] in H1. apply andb_true_iff in H1. destruct H1 as [Ha H1].
  unfold re_match, one_arg_pattern. rewrite run_open. cbn [append].
  rewrite run_plus. cbn [accepts]. rewrite Ha. cbn [consume map append].
  rewrite (group_then_lit "<" _ _ g1 _ _ H1).
  rewrite run_open, (group_then_lit "," _ _ g2 _ _ H2).
  apply dot_star_end.
Qed.

Lemma re_match_one_arg_inv (name : string) (m : list string) :
  re_match one_arg_pattern name = Some m ->
  exists g1 g2 rest,
    name = g1 ++ "<" ++ g2 ++ "," ++ rest /\ g1 <> "" /\
    lacks "<" g1 = true /\ lacks "," g2 = true /\ m = [g1; g2].
Proof.
  unfold re_match, one_arg_pattern. rewrite run_open.
  destruct name as [|a r]; [discriminate|].
  rewrite run_plus. destruct (accepts (Not "<") a) eqn:Ha; [|discriminate].
  cbn [consume map append]. intros H.
  apply group_then_lit_inv in H. destruct H as (g1 & r1 & -> & H1 & H).
  rewrite run_open in H.
  apply group_then_lit_inv in H. destruct H as (g2 & rest & -> & H2 & H).
  rewrite dot_star_end in H. injection H as <-.
  exists (String a g1), g2, rest. cbn [append lacks string_forallb].
  repeat split; try assumption; try discriminate.
  fold (lacks "<" g1). cbn [accepts] in Ha. now rewrite Ha, H1.
Qed.

(** X17: for a type name made of a non-empty head without ['<'], a
    ['<'], a first argument without a comma, a comma and anything more,
    [summarize_one_arg_len] gives the trimmed head, the trimmed first
    argument in angle brackets and the number of children. *)
Theorem summarize_one_arg_len_shows_the_first_argument
    (g1 g2 rest : string) (num_children : Z) :
  g1 <> "" -> lacks "<" g1 = true -> lacks "," g2 = true ->
  summarize_one_arg_len (g1 ++ "<" ++ g2 ++ "," ++ rest) num_children
  = Summary (trim_namespace g1 ++ "<" ++ trim_namespace g2 ++ "> size="
             ++ str num_children).
Proof.
  intros Hne H1 H2. unfold summarize_one_arg_len.
  now rewrite (re_match_one_arg g1 g2 rest Hne H1 H2).
Qed.

Lemma summarize_one_arg_len_shows_the_first_argument_witness :
  "alloc::vec::Vec" <> "" /\ lacks "<" "alloc::vec::Vec" = true /\
  lacks "," "alloc::string::String" = true /\
  summarize_one_arg_len "alloc::vec::Vec<alloc::string::String, alloc::alloc::Global>" 3
  = Summary "Vec<String> size=3".
Proof.
  split; [discriminate|]. split; [reflexivity|]. split; [reflexivity|].
  exact (summarize_one_arg_len_shows_the_first_argument
           "alloc::vec::Vec" "alloc::string::String" " alloc::alloc::Global>" 3
           ltac:(discriminate) eq_refl eq_refl).
Defined.

(** X18: [summarize_one_arg_len] raises [AttributeError] exactly when the
    type name does not have that form, that is when [re.match] finds no
    non-empty head followed by ['<'] and by a comma after it; a name with
    one template argument and no comma is such a name. *)
Theorem summarize_one_arg_len_raises_without_a_comma
    (display_type_name : string) (num_children : Z) :
  summarize_one_arg_len display_type_name num_children = AttributeError <->
  ~ exists g1 g2 rest,
      display_type_name = g1 ++ "<" ++ g2 ++ "," ++ rest /\
      g1 <> "" /\ lacks "<" g1 = true /\ lacks "," g2 = true.
Proof.
  unfold summarize_one_arg_len. split.
  - intros H (g1 & g2 & rest & -> & Hne & H1 & H2).
    rewrite (re_match_one_arg g1 g2 rest Hne H1 H2) in H. discriminate H.
  - intros H.
    destruct (re_match one_arg_pattern display_type_name) as [m|] eqn:E; [|reflexivity].
    exfalso. apply H. apply re_match_one_arg_inv in E.
    destruct E as (g1 & g2 & rest & E & Hne & H1 & H2 & _).
    now exists g1, g2, rest.
Qed.

Lemma summarize_one_arg_len_raises_without_a_comma_witness :
  summarize_one_arg_len "alloc::boxed::Box<i32>" 1 = AttributeError /\
  ~ exists g1 g2 rest,
      "alloc::boxed::Box<i32>" = g1 ++ "<" ++ g2 ++ "," ++ rest /\
      g1 <> "" /\ lacks "<" g1 = true /\ lacks "," g2 = true.
Proof.
  split; [reflexivity|].
  exact (proj1 (summarize_one_arg_len_raises_without_a_comma "alloc::boxed::Box<i32>" 1)
           eq_refl).
Defined.

(** Leading white space, as a greedy [\s*] takes it. *)
Lemma space_split (s : string) :
  exists ws t, s = ws ++ t /\ string_forallb (accepts Space) ws = true /\
               match t with String a _ => accepts Space a = false | EmptyString => True end.
Proof.
  induction s as [|a s (ws & t & -> & Hw & Ht)].
  - exists "", "". repeat split.
  - destruct (accepts Space a) eqn:A.
    + exists (String a ws), t. cbn [append string_forallb]. now rewrite A, Hw.
    + exists "", (String a (ws ++ t)). repeat split. exact A.
Qed.

Lemma space_is_no_comma (a : ascii) : accepts Space a = true -> Ascii.eqb a "," = false.
Proof.
  destruct a as [[] [] [] [] [] [] [] []]; vm_compute; intros H;
    try discriminate H; reflexivity.
Qed.

Lemma spaces_lack_comma (ws : string) :
  string_forallb (accepts Space) ws = true -> lacks "," ws = true.
Proof.
  induction ws as [|a ws IH]; cbn [string_forallb lacks]; [reflexivity|].
  intros H. apply andb_true_iff in H. destruct H as [Ha Hw].
  rewrite (space_is_no_comma a Ha). cbn [negb andb]. now apply IH.
Qed.

(** The tail of the two-argument pattern, after the first comma. *)
Lemma second_argument (ws g3 rest : string) (closed : list string) :
  string_forallb (accepts Space) ws = true ->
  match g3 with String a _ => accepts Space a = false | EmptyString => True end ->
  lacks "," g3 = true ->
  run [Chars Space Star; Open; Chars (Not ",") Star; Close; Chars (Lit ",") One;
       Chars Dot Star] (ws ++ g3 ++ "," ++ rest) [] closed
  = Some (closed ++ [g3])%list.
Proof.
  intros Hw Hh Hg. cbn [run].
  apply greedy_longest; [exact Hw | |].
  - destruct g3 as [|a g3]; [reflexivity | exact Hh].
  - cbn [consume_all map].
    change (run (Open :: Chars (Not ",") Star :: Close :: Chars (Lit ",") One
                 :: [Chars Dot Star]) (g3 ++ "," ++ rest) [] closed
            = Some (closed ++ [g3])%list).
    rewrite run_open. cbn [append]. rewrite (group_then_lit "," _ _ g3 _ _ Hg).
    apply dot_star_end.
Qed.

Lemma second_argument_inv (s : string) (closed m : list string) :
  run [Chars Space Star; Open; Chars (Not ",") Star; Close; Chars (Lit ",") One;
       Chars Dot Star] s [] closed = Some m ->
  exists ws g3 rest,
    s = ws ++ g3 ++ "," ++ rest /\ string_forallb (accepts Space) ws = true /\
    lacks "," g3 = true /\ m = (closed ++ [g3])%list.
Proof.
  cbn [run]. intros H. apply greedy_inv in H.
  destruct H as (ws & s' & -> & Hw & Hk). cbn [consume_all map] in Hk.
  change (run (Open :: Chars (Not ",") Star :: Close :: Chars (Lit ",") One
               :: [Chars Dot Star]) s' [] closed = Some m) in Hk.
  rewrite run_open in Hk. apply group_then_lit_inv in Hk.
  destruct Hk as (g3 & rest & -> & Hg & Hk). rewrite dot_star_end in Hk.
  injection Hk as <-. now exists ws, g3, rest.
Qed.

Lemma re_match_two_arg (g1 g2 ws g3 rest : string) :
  g1 <> "" -> lacks "<" g1 = true -> lacks "," g2 = true ->
  string_forallb (accepts Space) ws = true ->
  match g3 with String a _ => accepts Space a = false | EmptyString => True end ->
  lacks "," g3 = true ->
  re_match two_arg_pattern (g1 ++ "<" ++ g2 ++ "," ++ ws ++ g3 ++ "," ++ rest)
  = Some [g1; g2; g3].
Proof.
  intros Hne H1 H2 Hw Hh H3. destruct g1 as [|a g1]; [congruence|].
  cbn [lacks string_forallb] in H1. apply andb_true_iff in H1. destruct H1 as [Ha H1].
  unfold re_match, two_arg_pattern. rewrite run_open. cbn [append].
  rewrite run_plus. cbn [accepts]. rewrite Ha. cbn [consume map append].
  rewrite (group_then_lit "<" _ _ g1 _ _ H1).
  rewrite run_open, (group_then_lit "," _ _ g2 _ _ H2).
  etransitivity; [apply (second_argument ws g3 rest _ Hw Hh H3) | reflexivity].
Qed.

Lemma re_match_two_arg_inv (name : string) (m : list string) :
  re_match two_arg_pattern name = Some m ->
  exists g1 g2 g3 rest,
    name = g1 ++ "<" ++ g2 ++ "," ++ g3 ++ "," ++ rest /\ g1 <> "" /\
    lacks "<" g1 = true /\ lacks "," g2 = true /\ lacks "," g3 = true.
Proof.
  unfold re_match, two_arg_pattern. rewrite run_open.
  destruct name as [|a r]; [discriminate|].
  rewrite run_plus. destruct (accepts (Not "<") a) eqn:Ha; [|discriminate].
  cbn [consume map append]. intros H.
  apply group_then_lit_inv in H. destruct H as (g1 & r1 & -> & H1 & H).
  rewrite run_open in H.
  apply group_then_lit_inv in H. destruct H as (g2 & r2 & -> & H2 & H).
  apply second_argument_inv in H. destruct H as (ws & g3 & rest & -> & Hw & H3 & _).
  exists (String a g1), g2, (ws ++ g3), rest.
  cbn [append lacks string_forallb]. rewrite append_assoc.
  repeat split; try assumption; try discriminate.
  - fold (lacks "<" g1). cbn [accepts] in Ha. now rewrite Ha, H1.
  - fold (lacks "," (ws ++ g3)). rewrite lacks_append, H3.
    now rewrite (spaces_lack_comma ws Hw).
Qed.

(** X19: for a type name with a head, a first argument, a comma, white
    space, a second argument that does not start with white space, and a
    second comma, [summarize_two_arg_len] gives the trimmed head and the
    two trimmed arguments, separated by a comma and one space, and the
    number of children. *)
Theorem summarize_two_arg_len_shows_two_arguments
    (g1 g2 ws g3 rest : string) (num_children : Z) :
  g1 <> "" -> lacks "<" g1 = true -> lacks "," g2 = true ->
  string_forallb (accepts Space) ws = true ->
  match g3 with String a _ => accepts Space a = false | EmptyString => True end ->
  lacks "," g3 = true ->
  summarize_two_arg_len (g1 ++ "<" ++ g2 ++ "," ++ ws ++ g3 ++ "," ++ rest) num_children
  = Summary (trim_namespace g1 ++ "<" ++ trim_namespace g2 ++ ", "
             ++ trim_namespace g3 ++ "> size=" ++ str num_children).
Proof.
  intros Hne H1 H2 Hw Hh H3. unfold summarize_two_arg_len.
  now rewrite (re_match_two_arg g1 g2 ws g3 rest Hne H1 H2 Hw Hh H3).
Qed.

Lemma summarize_two_arg_len_shows_two_arguments_witness :
  summarize_two_arg_len
    "std::collections::hash::map::HashMap<u64,  alloc::string::String, std::hash::random::RandomState>"
    2
  = Summary "HashMap<u64, String> size=2".
Proof.
  exact (summarize_two_arg_len_shows_two_arguments
           "std::collections::hash::map::HashMap" "u64" "  " "alloc::string::String"
           " std::hash::random::RandomState>" 2
           ltac:(discriminate) eq_refl eq_refl eq_refl eq_refl eq_refl).
Defined.

(** X20: [summarize_two_arg_len] raises [AttributeError] exactly when the
    type name has no non-empty head followed by ['<'] and by two commas
    after it; the name of a vector, with its one comma, is such a name. *)
Theorem summarize_two_arg_len_raises_without_two_commas
    (display_type_name : string) (num_children : Z) :
  summarize_two_arg_len display_type_name num_children = AttributeError <->
  ~ exists g1 g2 g3 rest,
      display_type_name = g1 ++ "<" ++ g2 ++ "," ++ g3 ++ "," ++ rest /\
      g1 <> "" /\ lacks "<" g1 = true /\ lacks "," g2 = true /\ lacks "," g3 = true.
Proof.
  unfold summarize_two_arg_len. split.
  - intros H (g1 & g2 & g3 & rest & -> & Hne & H1 & H2 & H3).
    destruct (space_split g3) as (ws & t & -> & Hw & Ht).
    rewrite lacks_append in H3. apply andb_true_iff in H3. destruct H3 as [_ H3].
    rewrite append_assoc in H.
    rewrite (re_match_two_arg g1 g2 ws t rest Hne H1 H2 Hw Ht H3) in H.
    discriminate H.
  - intros H.
    destruct (re_match two_arg_pattern display_type_name) as [m|] eqn:E; [|reflexivity].
    exfalso. apply H. apply re_match_two_arg_inv in E.
    destruct E as (g1 & g2 & g3 & rest & E & Hne & H1 & H2 & H3).
    now exists g1, g2, g3, rest.
Qed.

Lemma summarize_two_arg_len_raises_without_two_commas_witness :
  summarize_two_arg_len "alloc::vec::Vec<i32, alloc::alloc::Global>" 3 = AttributeError /\
  ~ exists g1 g2 g3 rest,
      "alloc::vec::Vec<i32, alloc::alloc::Global>"
      = g1 ++ "<" ++ g2 ++ "," ++ g3 ++ "," ++ rest /\
      g1 <> "" /\ lacks "<" g1 = true /\ lacks "," g2 = true /\ lacks "," g3 = true.
Proof.
  split; [reflexivity|].
  exact (proj1 (summarize_two_arg_len_raises_without_two_commas
                  "alloc::vec::Vec<i32, alloc::alloc::Global>" 3) eq_refl).
Defined.

End CollectionsFacts.
